(** * Video analysis service: the job pipeline of [app/main.py]

    A shallow embedding of the job orchestration code of the service
    ([create_analysis_job], [get_status], [delete_job],
    [process_video_job], [chunk_video_with_ffmpeg],
    [analyze_video_chunk_with_gemini], [create_consolidated_report]) and of
    the [Job] row of [app/models.py], followed by the properties of the
    pipeline.

    Modelling choices.
    - Python [str] values are [string]s; Python integers are [Z].
    - The [jobs] table is a finite map from the primary key [id] to rows;
      a session's query-modify-commit is one atomic update of that map.
    - The three module-level directories are finite maps: [uploads/] and
      [reports/] from file path to a presence marker or to the text written,
      [chunks/] from the job id to the list of files of that job's
      sub-directory.
    - Everything outside the process (FFmpeg, the Gemini API, the report
      file write, [os.remove], the clock) is an oracle of the record [Env].
    - The code runs in a state monad over [World] that also carries the
      pending Python exception and the trace of the events of the run.
    - The table answers every query and every commit: no call on the
      session raises, except the INSERT of a primary key that is taken.
    - A run of the background task is not interleaved with other
      requests. *)

From Stdlib Require Import ZArith Lia Ascii.
From stdpp Require Import gmap strings list fin_maps pretty.

Open Scope string_scope.
Open Scope Z_scope.
Open Scope list_scope.

(** ** Strings *)

Definition nl : string := String "010"%char EmptyString.

(** Python's [f"{n}"] for an integer. *)
Definition str_of_int (n : Z) : string := pretty n.

(** Python's [c * n] for a one-character string. *)
Fixpoint str_repeat (c : ascii) (n : nat) : string :=
  match n with
  | O => EmptyString
  | S k => String c (str_repeat c k)
  end.

(** Python's [sep.join(parts)]. *)
Fixpoint str_join (sep : string) (parts : list string) : string :=
  match parts with
  | [] => EmptyString
  | [p] => p
  | p :: rest => p +:+ sep +:+ str_join sep rest
  end.

(** [t] occurs in [s] as a contiguous substring. *)
Definition occurs_in (t s : string) : Prop :=
  ∃ before after, s = before +:+ t +:+ after.

(** Python's [str.isspace] on one character of the ASCII range:
    TAB, LF, VT, FF, CR, FS, GS, RS, US and the blank. *)
Definition is_space (c : ascii) : bool :=
  let n := N_of_ascii c in
  ((9 <=? n) && (n <=? 13) || (28 <=? n) && (n <=? 32))%N.

Fixpoint lstrip (s : string) : string :=
  match s with
  | String c rest => if is_space c then lstrip rest else s
  | EmptyString => EmptyString
  end.

Fixpoint rstrip (s : string) : string :=
  match s with
  | String c rest =>
      match rstrip rest with
      | EmptyString => if is_space c then EmptyString else String c EmptyString
      | r => String c r
      end
  | EmptyString => EmptyString
  end.

(** Python's [str.strip()]. *)
Definition strip (s : string) : string := rstrip (lstrip s).

(** ** The report aggregator *)

Definition report_header (generated : string) (n : Z) : string :=
  nl +:+ "VIDEO ANALYSIS REPORT" +:+ nl +:+
  "=====================" +:+ nl +:+
  "Generated: " +:+ generated +:+ nl +:+
  "Total Segments Analyzed: " +:+ str_of_int n +:+ nl +:+
  nl +:+
  "EXECUTIVE SUMMARY" +:+ nl +:+
  "=================" +:+ nl +:+
  "This report contains a chronological analysis of the submitted video evidence, " +:+ nl +:+
  "broken down into 5-minute segments for detailed review." +:+ nl +:+
  nl +:+
  "DETAILED ANALYSIS" +:+ nl +:+
  "=================" +:+ nl.

(** The section label, the first line of a section without its line
    break. *)
Definition section_label (i : Z) : string :=
  "SEGMENT " +:+ str_of_int i +:+
  " (Minutes " +:+ str_of_int ((i - 1) * 5) +:+ "-" +:+ str_of_int (i * 5) +:+ ")".

Definition report_section (i : Z) (summary : string) : string :=
  nl +:+ section_label i +:+ nl +:+
  str_repeat "="%char 40 +:+ nl +:+
  summary +:+ nl.

Definition report_footer (n : Z) : string :=
  nl +:+
  nl +:+
  "CONCLUSION" +:+ nl +:+
  "==========" +:+ nl +:+
  "Analysis complete. " +:+ str_of_int n +:+
  " video segments have been processed and summarized above." +:+ nl +:+
  "Each segment represents approximately 5 minutes of video content." +:+ nl +:+
  nl +:+
  "Report generated by Video Analysis Service v1.0" +:+ nl.

(** The loop [for i, summary in enumerate(summaries, 1)]: [i] is the
    running index, [detailed_sections] the list appended to. *)
Fixpoint sections_loop (i : Z) (summaries detailed_sections : list string)
  : list string :=
  match summaries with
  | [] => detailed_sections
  | summary :: rest =>
      sections_loop (i + 1) rest (detailed_sections ++ [report_section i summary])
  end.

(** [create_consolidated_report(summaries)]; [generated] is the value of
    [datetime.now().strftime('%Y-%m-%d %H:%M:%S')] at the call. *)
Definition create_consolidated_report (generated : string) (summaries : list string)
  : string :=
  let n := Z.of_nat (length summaries) in
  let detailed_sections := sections_loop 1 summaries [] in
  report_header generated n +:+ str_join nl detailed_sections +:+ report_footer n.

(** ** The [jobs] table ([app/models.py])

    A row of the table; [Job.id] is the primary key.  The two timestamps
    are readings of the clock oracle. *)
Module Job.
Record t : Type := mk {
  id : string;
  status : string;
  created_at : Z;
  updated_at : Z;
  video_path : string;
  video_filename : option string;
  video_size : Z;
  report : option string;
  error : option string;
  chunks_processed : Z;
  total_chunks : Z
}.

Definition set_status (v : string) (j : t) : t :=
  mk (id j) v (created_at j) (updated_at j) (video_path j) (video_filename j)
     (video_size j) (report j) (error j) (chunks_processed j) (total_chunks j).

Definition set_updated_at (v : Z) (j : t) : t :=
  mk (id j) (status j) (created_at j) v (video_path j) (video_filename j)
     (video_size j) (report j) (error j) (chunks_processed j) (total_chunks j).

Definition set_report (v : option string) (j : t) : t :=
  mk (id j) (status j) (created_at j) (updated_at j) (video_path j) (video_filename j)
     (video_size j) v (error j) (chunks_processed j) (total_chunks j).

Definition set_error (v : option string) (j : t) : t :=
  mk (id j) (status j) (created_at j) (updated_at j) (video_path j) (video_filename j)
     (video_size j) (report j) v (chunks_processed j) (total_chunks j).

Definition set_chunks_processed (v : Z) (j : t) : t :=
  mk (id j) (status j) (created_at j) (updated_at j) (video_path j) (video_filename j)
     (video_size j) (report j) (error j) v (total_chunks j).

Definition set_total_chunks (v : Z) (j : t) : t :=
  mk (id j) (status j) (created_at j) (updated_at j) (video_path j) (video_filename j)
     (video_size j) (report j) (error j) (chunks_processed j) v.
End Job.

(** ** The world the service runs in *)

Record World : Type := mkWorld {
  jobs : gmap string Job.t;          (* the table, by primary key *)
  uploads : gset string;             (* files of uploads/, by path *)
  reports : gmap string string;      (* files of reports/: path to text *)
  chunks : gmap string (list string);(* directories of chunks/: path to files *)
  ticks : nat                        (* clock readings taken so far *)
}.

Definition with_jobs (v : gmap string Job.t) (w : World) : World :=
  mkWorld v (uploads w) (reports w) (chunks w) (ticks w).
Definition with_uploads (v : gset string) (w : World) : World :=
  mkWorld (jobs w) v (reports w) (chunks w) (ticks w).
Definition with_reports (v : gmap string string) (w : World) : World :=
  mkWorld (jobs w) (uploads w) v (chunks w) (ticks w).
Definition with_chunks (v : gmap string (list string)) (w : World) : World :=
  mkWorld (jobs w) (uploads w) (reports w) v (ticks w).
Definition with_ticks (v : nat) (w : World) : World :=
  mkWorld (jobs w) (uploads w) (reports w) (chunks w) v.

(** What a run leaves behind for an observer: every [db.commit()] that
    writes a row, every row deletion, and every call of the analysis
    function. *)
Inductive Event : Type :=
  | Committed (job_id : string) (row : Job.t)
  | Deleted (job_id : string)
  | Analyzing (chunk_path : string) (chunk_number : Z).

(** The outcome of [subprocess.run(cmd, ..., check=True)] followed by the
    listing of the chunk directory: the files [chunk_*.mp4] of the
    directory in sorted order after a run with exit status zero; the files
    written and the standard error text after a run with another exit
    status ([CalledProcessError]); or the text of any other exception,
    such as a missing executable. *)
Inductive FfmpegRun : Type :=
  | FfmpegDone (chunk_files : list string)
  | FfmpegFailed (chunk_files : list string) (stderr : string)
  | FfmpegNotRun (e : string).

(** The oracles.  An [option string] or the left side of a sum is the text
    of the exception the call raises. *)
Record Env : Type := mkEnv {
  ffmpeg : string → string → FfmpegRun;        (* job id, video path *)
  gemini : string → string + string;           (* chunk path: the exception of
                                                  the read or of the API call,
                                                  or the text answered *)
  write_error : string → option string;        (* opening or writing a file *)
  remove_error : string → option string;       (* os.remove, shutil.rmtree *)
  utcnow : nat → Z;                            (* datetime.utcnow() *)
  strftime_now : nat → string;                 (* datetime.now().strftime(..) *)
  integrity_error : string                     (* INSERT of a taken primary key *)
}.

(** ** The monad of the code: state, exception, trace *)

Inductive Result (A : Type) : Type :=
  | Ok (a : A)
  | Raise (e : string).
Arguments Ok {A} a.
Arguments Raise {A} e.

Definition M (A : Type) : Type := World → Result A * World * list Event.

Definition ret {A} (a : A) : M A := fun w => (Ok a, w, []).

Definition bind {A B} (m : M A) (k : A → M B) : M B :=
  fun w =>
    match m w with
    | (Ok a, w1, t1) => let '(r, w2, t2) := k a w1 in (r, w2, t1 ++ t2)
    | (Raise e, w1, t1) => (Raise e, w1, t1)
    end.

Definition raise {A} (e : string) : M A := fun w => (Raise e, w, []).

(** [try: body except Exception as e: handler(str(e))]. *)
Definition try_except {A} (body : M A) (handler : string → M A) : M A :=
  fun w =>
    match body w with
    | (Ok a, w1, t1) => (Ok a, w1, t1)
    | (Raise e, w1, t1) => let '(r, w2, t2) := handler e w1 in (r, w2, t1 ++ t2)
    end.

Definition emit (ev : Event) : M unit := fun w => (Ok tt, w, [ev]).
Definition get_world : M World := fun w => (Ok w, w, []).
Definition modify (f : World → World) : M unit := fun w => (Ok tt, f w, []).

Notation "'let*' x ':=' m 'in' k" := (bind m (fun x => k))
  (at level 10, x name, m at level 200, k at level 200).
Notation "m ';;' k" := (bind m (fun _ => k))
  (at level 100, k at level 200, right associativity).

Definition outcome {A} (r : Result A * World * list Event) : Result A := r.1.1.
Definition world_after {A} (r : Result A * World * list Event) : World := r.1.2.
Definition trace {A} (r : Result A * World * list Event) : list Event := r.2.

(** The rows an observer of job [job_id] can see during a run, in order. *)
Fixpoint observed (job_id : string) (t : list Event) : list Job.t :=
  match t with
  | [] => []
  | Committed key row :: rest =>
      if decide (key = job_id) then row :: observed job_id rest
      else observed job_id rest
  | _ :: rest => observed job_id rest
  end.

(** The analysis calls of a run, in order. *)
Fixpoint analyzed (t : list Event) : list (string * Z) :=
  match t with
  | [] => []
  | Analyzing p n :: rest => (p, n) :: analyzed rest
  | _ :: rest => analyzed rest
  end.

(** ** Paths and the file system *)

Definition UPLOAD_DIR : string := "uploads".
Definition CHUNKS_DIR : string := "chunks".
Definition REPORTS_DIR : string := "reports".

(** [dir / name] of [pathlib]. *)
Definition path_join (dir name : string) : string := dir +:+ "/" +:+ name.

Definition chunk_dir_of (job_id : string) : string := path_join CHUNKS_DIR job_id.
Definition report_path_of (job_id : string) : string :=
  path_join REPORTS_DIR (job_id +:+ "_report.txt").

(** [path] is a file of one of the three directories. *)
Definition file_exists (w : World) (path : string) : bool :=
  bool_decide (path ∈ uploads w)
  || bool_decide (is_Some (reports w !! path))
  || bool_decide (map_Exists (λ _ files, path ∈ files) (chunks w)).

(** [os.path.exists]: a file or a chunk directory. *)
Definition path_exists (w : World) (path : string) : bool :=
  file_exists w path || bool_decide (is_Some (chunks w !! path)).

Definition unlink (path : string) (w : World) : World :=
  with_chunks (filter (λ f, f ≠ path) <$> chunks w)
    (with_reports (delete path (reports w))
       (with_uploads (uploads w ∖ {[path]}) w)).


(** [Path(p).name]: the last component of the path. *)
Fixpoint path_components (p cur : string) : list string :=
  match p with
  | EmptyString => [cur]
  | String c rest =>
      if Ascii.eqb c "/" then cur :: path_components rest EmptyString
      else path_components rest (cur +:+ String c EmptyString)
  end.

Definition path_name (p : string) : string :=
  List.last (filter (λ c, c ≠ EmptyString ∧ c ≠ ".") (path_components p EmptyString)) EmptyString.

(** [name.rfind('.')]. *)
Fixpoint rfind_dot (name : string) : option nat :=
  match name with
  | EmptyString => None
  | String c rest =>
      match rfind_dot rest with
      | Some i => Some (S i)
      | None => if Ascii.eqb c "." then Some O else None
      end
  end.

(** [Path(p).suffix]. *)
Definition path_suffix (p : string) : string :=
  let name := path_name p in
  match rfind_dot name with
  | Some i =>
      if ((0 <? i) && (i <? String.length name - 1))%nat
      then String.substring i (String.length name - i) name
      else EmptyString
  | None => EmptyString
  end.

(** [str.lower()] on the ASCII range. *)
Definition lower_ascii (c : ascii) : ascii :=
  let n := N_of_ascii c in
  if ((65 <=? n) && (n <=? 90))%N then ascii_of_N (n + 32) else c.

Fixpoint lower (s : string) : string :=
  match s with
  | EmptyString => EmptyString
  | String c rest => String (lower_ascii c) (lower rest)
  end.

(** ** Requests and answers *)

(** What a handler answers: the body, or the [HTTPException] raised. *)
Inductive HttpResult (A : Type) : Type :=
  | HttpOk (body : A)
  | HttpError (status_code : Z) (detail : string).
Arguments HttpOk {A} body.
Arguments HttpError {A} status_code detail.

(** The [UploadFile] of a request. *)
Record Upload : Type := mkUpload {
  filename : option string;
  content_type : option string;
  content : string
}.

Record Ticket : Type := mkTicket {
  ticket_jobId : string;
  ticket_statusUrl : string;
  ticket_filename : option string;
  ticket_fileSize : Z
}.

Definition valid_video_extensions : list string :=
  [".mp4"; ".avi"; ".mov"; ".mkv"; ".wmv"; ".flv"; ".webm"; ".m4v"].

Definition truthy (o : option string) : bool :=
  match o with
  | Some s => negb (String.eqb s EmptyString)
  | None => false
  end.

Section Service.

Variable env : Env.

(** [os.remove(path)]. *)
Definition os_remove (path : string) : M unit :=
  fun w =>
    match remove_error env path with
    | Some e => (Raise e, w, [])
    | None =>
        if file_exists w path then (Ok tt, unlink path w, [])
        else (Raise ("[Errno 2] No such file or directory: '" +:+ path +:+ "'"), w, [])
    end.

(** [shutil.rmtree(dir)]: the directory goes with its files. *)
Definition rmtree (dir : string) : M unit :=
  fun w =>
    match remove_error env dir with
    | Some e => (Raise e, w, [])
    | None =>
        if bool_decide (is_Some (chunks w !! dir))
        then (Ok tt, with_chunks (delete dir (chunks w)) w, [])
        else (Raise ("[Errno 20] Not a directory: '" +:+ dir +:+ "'"), w, [])
    end.

(** [async with aiofiles.open(path, 'w') as f: await f.write(text)]. *)
Definition write_text (path text : string) : M unit :=
  fun w =>
    match write_error env path with
    | Some e => (Raise e, w, [])
    | None => (Ok tt, with_reports (<[path := text]> (reports w)) w, [])
    end.

(** [datetime.utcnow()]. *)
Definition read_utcnow : M Z :=
  fun w => (Ok (utcnow env (ticks w)), with_ticks (S (ticks w)) w, []).

(** [datetime.now().strftime('%Y-%m-%d %H:%M:%S')]. *)
Definition read_strftime_now : M string :=
  fun w => (Ok (strftime_now env (ticks w)), with_ticks (S (ticks w)) w, []).

(** The pattern
    [db_job = db.query(Job).filter(Job.id == job_id).first()]
    [if db_job: <assignments>; db.commit()]:
    the row is rewritten by [assign], the column [updated_at] gets its
    [onupdate] value, and the commit makes the row visible. *)
Definition update_job (job_id : string) (assign : Job.t → Job.t) : M unit :=
  fun w =>
    match jobs w !! job_id with
    | Some db_job =>
        let row := Job.set_updated_at (utcnow env (ticks w)) (assign db_job) in
        (Ok tt,
         with_ticks (S (ticks w)) (with_jobs (<[job_id := row]> (jobs w)) w),
         [Committed job_id row])
    | None => (Ok tt, w, [])
    end.

(** [chunk_video_with_ffmpeg(job_id, video_path)].  The job id is a new
    UUID, so the chunk directory holds what this run of FFmpeg wrote. *)
Definition chunk_video_with_ffmpeg (job_id video_path : string) : M (list string) :=
  let chunk_dir := chunk_dir_of job_id in
  match ffmpeg env job_id video_path with
  | FfmpegDone chunk_files =>
      modify (fun w => with_chunks (<[chunk_dir := chunk_files]> (chunks w)) w) ;;
      ret chunk_files
  | FfmpegFailed chunk_files stderr =>
      modify (fun w => with_chunks (<[chunk_dir := chunk_files]> (chunks w)) w) ;;
      raise ("Failed to chunk video: " +:+ stderr)
  | FfmpegNotRun e =>
      modify (fun w =>
                with_chunks (<[chunk_dir := default [] (chunks w !! chunk_dir)]> (chunks w)) w) ;;
      raise e
  end.

(** [analyze_video_chunk_with_gemini(chunk_path, chunk_number)]. *)
Definition analyze_video_chunk_with_gemini (chunk_path : string) (chunk_number : Z)
  : M string :=
  emit (Analyzing chunk_path chunk_number) ;;
  match gemini env chunk_path with
  | inr text => ret (strip text)
  | inl e =>
      raise ("Failed to analyze chunk " +:+ str_of_int chunk_number +:+ ": " +:+ e)
  end.

(** The body of the loop of step 2 at index [i]: the [try] block with
    its [except Exception as e] handler.  It answers the list
    [summaries] after the append.  Only the analysis call can raise here,
    so the handler appends to the list as it was before the [try]. *)
Definition analyze_chunk (job_id : string) (i : Z) (chunk_path : string)
    (summaries : list string) : M (list string) :=
  try_except
    (let* summary := analyze_video_chunk_with_gemini chunk_path (i + 1) in
     let summaries := summaries ++ [summary] in
     update_job job_id (Job.set_chunks_processed (i + 1)) ;;
     ret summaries)
    (fun e =>
       ret (summaries ++
              ["Error processing chunk " +:+ str_of_int (i + 1) +:+ ": " +:+ e])).

(** The loop [for i, chunk_path in enumerate(chunk_paths)] of step 2;
    [i] is the running index and [summaries] the list appended to. *)
Fixpoint analyze_chunks (job_id : string) (i : Z) (chunk_paths summaries : list string)
  : M (list string) :=
  match chunk_paths with
  | [] => ret summaries
  | chunk_path :: rest =>
      let* summaries := analyze_chunk job_id i chunk_path summaries in
      analyze_chunks job_id (i + 1) rest summaries
  end.

(** The loop [for chunk_path in chunk_paths] that removes the chunk
    files; [except: pass] swallows what [os.remove] raises. *)
Fixpoint cleanup_chunks (chunk_paths : list string) : M unit :=
  match chunk_paths with
  | [] => ret tt
  | chunk_path :: rest =>
      try_except (os_remove chunk_path) (fun _ => ret tt) ;;
      cleanup_chunks rest
  end.

(** [process_video_job(job_id, video_path)]. *)
Definition process_video_job (job_id video_path : string) : M unit :=
  try_except
    (update_job job_id (Job.set_status "PROCESSING") ;;
     let* chunk_paths := chunk_video_with_ffmpeg job_id video_path in
     match chunk_paths with
     | [] => raise "No video chunks were created"
     | _ =>
         let n := Z.of_nat (length chunk_paths) in
         update_job job_id (Job.set_total_chunks n) ;;
         let* summaries := analyze_chunks job_id 0 chunk_paths [] in
         let* generated := read_strftime_now in
         let final_report := create_consolidated_report generated summaries in
         write_text (report_path_of job_id) final_report ;;
         update_job job_id
           (fun db_job =>
              Job.set_chunks_processed n
                (Job.set_report (Some final_report)
                   (Job.set_status "COMPLETE" db_job))) ;;
         cleanup_chunks chunk_paths
     end)
    (fun e =>
       update_job job_id
         (fun db_job => Job.set_error (Some e) (Job.set_status "FAILED" db_job))).

(** ** The HTTP handlers *)

(** Steps 1 to 4 and 6 of [create_analysis_job]; [job_id] is the value
    of [str(uuid.uuid4())].  The handler also answers the path handed
    to the background task of step 5. *)
Definition create_analysis_job (job_id : string) (file : Upload)
  : M (HttpResult (Ticket * string)) :=
  let file_extension :=
    if truthy (filename file) then lower (path_suffix (default EmptyString (filename file)))
    else EmptyString in
  let is_video_by_content :=
    match content_type file with
    | Some ct => negb (String.eqb ct EmptyString) && String.prefix "video/" ct
    | None => false
    end in
  let is_video_by_extension := bool_decide (file_extension ∈ valid_video_extensions) in
  if negb (is_video_by_content || is_video_by_extension) then
    ret (HttpError 400
           ("Only video files are allowed. Got content-type: " +:+
            default "None" (content_type file) +:+
            ", extension: " +:+ file_extension))
  else
    let file_extension :=
      if truthy (filename file) then path_suffix (default EmptyString (filename file))
      else ".mp4" in
    let save_path := path_join UPLOAD_DIR (job_id +:+ file_extension) in
    let file_size := Z.of_nat (String.length (content file)) in
    match write_error env save_path with
    | Some e => ret (HttpError 500 ("Failed to save file: " +:+ e))
    | None =>
        modify (fun w => with_uploads ({[save_path]} ∪ uploads w) w) ;;
        let* created := read_utcnow in
        let* w := get_world in
        match jobs w !! job_id with
        | Some _ =>
            ret (HttpError 500 ("Failed to create job record: " +:+ integrity_error env))
        | None =>
            let* updated := read_utcnow in
            let db_job :=
              Job.mk job_id "PENDING" created updated save_path (filename file)
                file_size None None 0 0 in
            modify (with_jobs (<[job_id := db_job]> (jobs w))) ;;
            emit (Committed job_id db_job) ;;
            ret (HttpOk (mkTicket job_id
                           ("/v1/analyze/status/" +:+ job_id)
                           (filename file) file_size,
                         save_path))
        end
    end.

(** The request [POST /v1/analyze] with its background task: the task
    ([background_tasks.add_task(process_video_job, job_id, save_path)])
    runs once, after the handler has answered. *)
Definition post_analyze (job_id : string) (file : Upload) : M (HttpResult Ticket) :=
  let* answer := create_analysis_job job_id file in
  match answer with
  | HttpOk (ticket, save_path) =>
      process_video_job job_id save_path ;;
      ret (HttpOk ticket)
  | HttpError code detail => ret (HttpError code detail)
  end.

Record StatusResponse : Type := mkStatusResponse {
  resp_jobId : string;
  resp_status : string;
  resp_created_at : Z;
  resp_updated_at : Z;
  resp_filename : option string;
  resp_fileSize : Z;
  resp_chunks_processed : Z;
  resp_total_chunks : Z;
  resp_report : option string;     (* the key is present or not *)
  resp_error : option string
}.

(** [get_status(job_id)]. *)
Definition get_status (job_id : string) (w : World) : HttpResult StatusResponse :=
  match jobs w !! job_id with
  | None => HttpError 404 "Job not found"
  | Some db_job =>
      HttpOk
        (mkStatusResponse job_id (Job.status db_job)
           (Job.created_at db_job) (Job.updated_at db_job)
           (Job.video_filename db_job) (Job.video_size db_job)
           (Job.chunks_processed db_job) (Job.total_chunks db_job)
           (if String.eqb (Job.status db_job) "COMPLETE" && truthy (Job.report db_job)
            then Job.report db_job else None)
           (if String.eqb (Job.status db_job) "FAILED" && truthy (Job.error db_job)
            then Job.error db_job else None))
  end.

(** [delete_job(job_id)]. *)
Definition delete_job (job_id : string) : M (HttpResult string) :=
  let* w := get_world in
  match jobs w !! job_id with
  | None => ret (HttpError 404 "Job not found")
  | Some db_job =>
      try_except
        ((if negb (String.eqb (Job.video_path db_job) EmptyString)
             && path_exists w (Job.video_path db_job)
          then os_remove (Job.video_path db_job) else ret tt) ;;
         let report_path := report_path_of job_id in
         (let* w := get_world in
          if path_exists w report_path
          then os_remove report_path else ret tt) ;;
         let chunk_dir := chunk_dir_of job_id in
         (let* w := get_world in
          if path_exists w chunk_dir
          then rmtree chunk_dir else ret tt) ;;
         modify (fun w => with_jobs (delete job_id (jobs w)) w) ;;
         emit (Deleted job_id) ;;
         ret (HttpOk ("Job " +:+ job_id +:+ " deleted successfully")))
        (fun e => ret (HttpError 500 ("Failed to delete job: " +:+ e)))
  end.

End Service.


(** ** Reference descriptions used by the statements *)

(** The sections of a report for the summaries [summaries], the first
    one numbered [i]. *)
Fixpoint numbered_sections (i : Z) (summaries : list string) : list string :=
  match summaries with
  | [] => []
  | summary :: rest => report_section i summary :: numbered_sections (i + 1) rest
  end.

(** What the loop of step 2 appends for the chunk at index [i]: the
    stripped text of the analysis, or the text built by the handler from
    the exception of [analyze_video_chunk_with_gemini]. *)
Definition chunk_summary (env : Env) (i : Z) (chunk_path : string) : string :=
  match gemini env chunk_path with
  | inr text => strip text
  | inl e =>
      "Error processing chunk " +:+ str_of_int (i + 1) +:+ ": " +:+
      ("Failed to analyze chunk " +:+ str_of_int (i + 1) +:+ ": " +:+ e)
  end.

Fixpoint chunk_summaries (env : Env) (i : Z) (chunk_paths : list string) : list string :=
  match chunk_paths with
  | [] => []
  | chunk_path :: rest => chunk_summary env i chunk_path :: chunk_summaries env (i + 1) rest
  end.

(** The chunks with their numbers, the first one numbered [i + 1]. *)
Fixpoint numbered_chunks (i : Z) (chunk_paths : list string) : list (string * Z) :=
  match chunk_paths with
  | [] => []
  | chunk_path :: rest => (chunk_path, i + 1) :: numbered_chunks (i + 1) rest
  end.

(** The writes a job row goes through, as a relation between the row
    before and the row after a commit. *)
Inductive lifecycle_step : Job.t → Job.t → Prop :=
  | step_start j t :
      Job.status j = "PENDING" →
      lifecycle_step j (Job.set_updated_at t (Job.set_status "PROCESSING" j))
  | step_total j t n :
      Job.status j = "PROCESSING" →
      Job.total_chunks j = 0 → Job.chunks_processed j = 0 → 1 ≤ n →
      lifecycle_step j (Job.set_updated_at t (Job.set_total_chunks n j))
  | step_progress j t k :
      Job.status j = "PROCESSING" →
      Job.chunks_processed j < k ≤ Job.total_chunks j →
      lifecycle_step j (Job.set_updated_at t (Job.set_chunks_processed k j))
  | step_complete j t text :
      Job.status j = "PROCESSING" →
      1 ≤ Job.total_chunks j →
      lifecycle_step j
        (Job.set_updated_at t
           (Job.set_chunks_processed (Job.total_chunks j)
              (Job.set_report (Some text) (Job.set_status "COMPLETE" j))))
  | step_fail j t e :
      Job.status j = "PROCESSING" →
      lifecycle_step j
        (Job.set_updated_at t (Job.set_error (Some e) (Job.set_status "FAILED" j))).

(** [lifecycle_path j rows j']: the rows [rows] are written one after the
    other starting from the row [j], and [j'] is the last one ([j] itself
    when nothing is written). *)
Inductive lifecycle_path : Job.t → list Job.t → Job.t → Prop :=
  | path_nil j : lifecycle_path j [] j
  | path_cons j r rows j' :
      lifecycle_step j r → lifecycle_path r rows j' → lifecycle_path j (r :: rows) j'.

(** The row [create_analysis_job] inserts. *)
Definition new_row (j : Job.t) : Prop :=
  Job.status j = "PENDING" ∧ Job.report j = None ∧ Job.error j = None
  ∧ Job.chunks_processed j = 0 ∧ Job.total_chunks j = 0.

(** The status moves the specification allows between two observations. *)
Definition status_move (s s' : string) : Prop :=
  (s = "PENDING" ∧ s' = "PROCESSING")
  ∨ (s = "PROCESSING" ∧ (s' = "PROCESSING" ∨ s' = "COMPLETE" ∨ s' = "FAILED")).

(** The fatal outcome of the segmentation step, if any: the text of the
    exception that leaves the [try] block before the loop of step 2. *)
Definition segmentation_error (env : Env) (job_id video_path : string) : option string :=
  match ffmpeg env job_id video_path with
  | FfmpegDone [] => Some "No video chunks were created"
  | FfmpegDone (_ :: _) => None
  | FfmpegFailed _ stderr => Some ("Failed to chunk video: " +:+ stderr)
  | FfmpegNotRun e => Some e
  end.

(** What holds of a row at every commit (see [lifecycle_invariant]). *)
Definition row_invariant (j : Job.t) : Prop :=
  (Job.report j ≠ None ↔ Job.status j = "COMPLETE")
  ∧ (Job.error j ≠ None ↔ Job.status j = "FAILED")
  ∧ 0 ≤ Job.chunks_processed j ≤ Job.total_chunks j.

(** Two list elements that follow each other. *)
Definition adjacent {A} (a b : A) (l : list A) : Prop :=
  ∃ l1 l2, l = l1 ++ a :: b :: l2.

(** ** Scenarios

    A job [job-1] for the upload [clip.mp4], in a world that starts empty,
    under four behaviours of the outside. *)

Definition chunk_000 : string := "chunks/job-1/chunk_000.mp4".
Definition chunk_001 : string := "chunks/job-1/chunk_001.mp4".
Definition chunk_002 : string := "chunks/job-1/chunk_002.mp4".

Definition empty_world : World := mkWorld ∅ ∅ ∅ ∅ 0.

Definition clip : Upload := mkUpload (Some "clip.mp4") (Some "video/mp4") "abcdef".

(** The row [create_analysis_job] inserts for [clip], and the world it
    leaves. *)
Definition submitted_row : Job.t :=
  Job.mk "job-1" "PENDING" 0 1 "uploads/job-1.mp4" (Some "clip.mp4") 6 None None 0 0.

Definition submitted_world : World :=
  mkWorld {["job-1" := submitted_row]} {["uploads/job-1.mp4"]} ∅ ∅ 2.

(** Three chunks; the analysis of the second one times out. *)
Definition second_chunk_fails : Env :=
  mkEnv (fun _ _ => FfmpegDone [chunk_000; chunk_001; chunk_002])
        (fun p => if String.eqb p chunk_001 then inl "timeout"
                  else inr (" Officer arrives. " +:+ nl))
        (fun _ => None) (fun _ => None) Z.of_nat (fun _ => "2024-01-01 00:00:00")
        "UNIQUE constraint failed: jobs.id".

(** Two chunks; the analysis of the first one times out. *)
Definition first_chunk_fails : Env :=
  mkEnv (fun _ _ => FfmpegDone [chunk_000; chunk_001])
        (fun p => if String.eqb p chunk_000 then inl "timeout" else inr "Officer arrives.")
        (fun _ => None) (fun _ => None) Z.of_nat (fun _ => "2024-01-01 00:00:00")
        "UNIQUE constraint failed: jobs.id".

(** One chunk, analysed; the report file cannot be written. *)
Definition report_write_fails : Env :=
  mkEnv (fun _ _ => FfmpegDone [chunk_000])
        (fun _ => inr "Officer arrives.")
        (fun p => if String.prefix "reports/" p
                  then Some "[Errno 28] No space left on device" else None)
        (fun _ => None) Z.of_nat (fun _ => "2024-01-01 00:00:00")
        "UNIQUE constraint failed: jobs.id".

(** FFmpeg leaves no chunk. *)
Definition no_chunks : Env :=
  mkEnv (fun _ _ => FfmpegDone [])
        (fun _ => inr "Officer arrives.")
        (fun _ => None) (fun _ => None) Z.of_nat (fun _ => "2024-01-01 00:00:00")
        "UNIQUE constraint failed: jobs.id".

(** The last two rows written when the report file cannot be written. *)
Definition progress_row : Job.t :=
  Job.mk "job-1" "PROCESSING" 0 4 "uploads/job-1.mp4" (Some "clip.mp4") 6 None None 1 1.

Definition failed_row : Job.t :=
  Job.mk "job-1" "FAILED" 0 6 "uploads/job-1.mp4" (Some "clip.mp4") 6 None
    (Some "[Errno 28] No space left on device") 1 1.

(** The world after the job with three chunks has run, and its row. *)
Definition completed_world : World :=
  world_after (post_analyze second_chunk_fails "job-1" clip empty_world).

Definition completed_row : Job.t :=
  default submitted_row (jobs completed_world !! "job-1").



(** What an event shows of the progress of a job: the status and the
    counter of a committed row, or the number of the chunk whose analysis
    starts. *)
Definition event_view (ev : Event) : string * Z :=
  match ev with
  | Committed _ row => (Job.status row, Job.chunks_processed row)
  | Deleted _ => ("deleted", 0)
  | Analyzing _ chunk_number => ("analyze", chunk_number)
  end.

(** ** Listing ([GET /v1/jobs])

    What [list_jobs] answers for one row. *)
Record JobSummary : Type := mkJobSummary {
  item_jobId : string;
  item_status : string;
  item_created_at : Z;
  item_updated_at : Z;
  item_filename : option string;
  item_fileSize : Z;
  item_chunks_processed : Z;
  item_total_chunks : Z
}.

Definition job_summary (job : Job.t) : JobSummary :=
  mkJobSummary (Job.id job) (Job.status job) (Job.created_at job) (Job.updated_at job)
    (Job.video_filename job) (Job.video_size job)
    (Job.chunks_processed job) (Job.total_chunks job).

(** [query.offset(skip)] and [query.limit(limit)] as SQLite evaluates them:
    a negative offset counts as zero, a negative limit as no limit. *)
Definition sql_offset {A} (skip : Z) (rows : list A) : list A :=
  drop (Z.to_nat skip) rows.

Definition sql_limit {A} (limit : Z) (rows : list A) : list A :=
  if limit <? 0 then rows else take (Z.to_nat limit) rows.

(** [list_jobs(skip, limit, status)].  The query has no ORDER BY; [rows]
    is the table in the order the engine scans it. *)
Definition list_jobs (rows : list Job.t) (skip limit : Z) (status : option string)
  : list JobSummary :=
  let query :=
    if truthy status
    then filter (λ job, Job.status job = default EmptyString status) rows
    else rows in
  let jobs := sql_limit limit (sql_offset skip query) in
  job_summary <$> jobs.

(** [rows] is a scan of the table of [w]: every row once, in some order. *)
Definition table_scan (w : World) (rows : list Job.t) : Prop :=
  rows ≡ₚ (map_to_list (jobs w)).*2.

(** ** More reference descriptions *)

(** The value of [chunks_processed] after the loop of step 2 has gone
    through [chunk_paths] from index [i], when it was [k] before: the
    number of the last chunk whose analysis answered. *)
Fixpoint last_analyzed (env : Env) (i : Z) (chunk_paths : list string) (k : Z) : Z :=
  match chunk_paths with
  | [] => k
  | chunk_path :: rest =>
      last_analyzed env (i + 1) rest
        (match gemini env chunk_path with inr _ => i + 1 | inl _ => k end)
  end.

(** The chunk files the cleanup loop removes: those on which [os.remove]
    does not raise for a reason of its own. *)
Definition removable (env : Env) (chunk_paths : list string) : list string :=
  filter (λ p, remove_error env p = None) chunk_paths.

(** The files of the chunk directory of a job after the segmentation
    step, given what the directory held before. *)
Definition chunk_listing (env : Env) (job_id video_path : string)
    (before : option (list string)) : list string :=
  match ffmpeg env job_id video_path with
  | FfmpegDone chunk_files => chunk_files
  | FfmpegFailed chunk_files _ => chunk_files
  | FfmpegNotRun _ => default [] before
  end.

(** The path [create_analysis_job] saves an upload at. *)
Definition saved_path (job_id : string) (file : Upload) : string :=
  path_join UPLOAD_DIR
    (job_id +:+ (if truthy (filename file)
                 then path_suffix (default EmptyString (filename file))
                 else ".mp4")).

(** What a run for the job [job_id] may do to the table, from the world
    [w] to the world [w'] with the trace [tr]: it leaves every other row
    alone, it neither inserts nor deletes the row of the job, and it
    commits nothing but that row, and only when the row is there. *)
Definition writes_only (job_id : string) (w w' : World) (tr : list Event) : Prop :=
  (∀ k, k ≠ job_id → jobs w' !! k = jobs w !! k)
  ∧ (jobs w' !! job_id = None ↔ jobs w !! job_id = None)
  ∧ Forall (λ ev,
              match ev with
              | Committed k _ => k = job_id ∧ is_Some (jobs w !! job_id)
              | Deleted _ => False
              | Analyzing _ _ => True
              end) tr.

Definition keeps_to {A} (job_id : string) (m : M A) : Prop :=
  ∀ w, writes_only job_id w (world_after (m w)) (trace (m w)).

(** * Properties *)

(** ** Strings *)

Lemma str_app_cons (x : ascii) (a b : string) :
  String x a +:+ b = String x (a +:+ b).
Proof. reflexivity. Qed.

Lemma str_app_assoc (a b c : string) : (a +:+ b) +:+ c = a +:+ (b +:+ c).
Proof.
  induction a as [|x a IH]; [reflexivity|].
  rewrite !str_app_cons. now rewrite IH.
Qed.

Lemma str_app_cons_nil (a : string) : a +:+ EmptyString = a.
Proof. induction a as [|x a IH]; [reflexivity|]. rewrite str_app_cons. now rewrite IH. Qed.

Lemma occurs_in_here (t after : string) : occurs_in t (t +:+ after).
Proof. exists EmptyString, after. reflexivity. Qed.

Lemma occurs_in_prepend (t s before : string) :
  occurs_in t s → occurs_in t (before +:+ s).
Proof.
  intros (b & a & ->). exists (before +:+ b), a. now rewrite str_app_assoc.
Qed.

Lemma occurs_in_append (t s after : string) :
  occurs_in t s → occurs_in t (s +:+ after).
Proof.
  intros (b & a & ->). exists b, (a +:+ after). now rewrite !str_app_assoc.
Qed.

(** ** The aggregator *)

Lemma sections_loop_spec (summaries : list string) :
  ∀ i acc, sections_loop i summaries acc = acc ++ numbered_sections i summaries.
Proof.
  induction summaries as [|s rest IH]; intros i acc; simpl.
  - now rewrite app_nil_r.
  - rewrite IH, <- app_assoc. reflexivity.
Qed.

Lemma numbered_sections_length (summaries : list string) :
  ∀ i, length (numbered_sections i summaries) = length summaries.
Proof. induction summaries as [|s rest IH]; intros i; simpl; [|rewrite IH]; reflexivity. Qed.

Lemma numbered_sections_lookup (summaries : list string) :
  ∀ i (k : nat) summary,
    summaries !! k = Some summary →
    numbered_sections i summaries !! k = Some (report_section (i + Z.of_nat k) summary).
Proof.
  induction summaries as [|s rest IH]; intros i k summary H; [discriminate|].
  destruct k as [|k]; simpl in *.
  - injection H as ->. now rewrite Z.add_0_r.
  - rewrite (IH (i + 1) k summary H). do 2 f_equal. lia.
Qed.

Lemma create_consolidated_report_unfold (generated : string) (summaries : list string) :
  create_consolidated_report generated summaries =
  report_header generated (Z.of_nat (length summaries)) +:+
  str_join nl (numbered_sections 1 summaries) +:+
  report_footer (Z.of_nat (length summaries)).
Proof.
  unfold create_consolidated_report. now rewrite sections_loop_spec.
Qed.

Lemma report_header_split (generated : string) (n : Z) :
  ∃ before after,
    (∀ g, report_header g n = before +:+ g +:+ after) ∧
    occurs_in ("Total Segments Analyzed: " +:+ str_of_int n) after.
Proof.
  eexists (nl +:+ "VIDEO ANALYSIS REPORT" +:+ nl +:+
           "=====================" +:+ nl +:+ "Generated: "), _.
  split.
  - intros g. unfold report_header. rewrite !str_app_assoc. reflexivity.
  - apply (occurs_in_prepend _ _ nl). rewrite <- str_app_assoc.
    apply occurs_in_here.
Qed.

(** C7. [create_consolidated_report] keeps the order of its input and is
    a function of it up to the generation time: the report is the header,
    which states the number of summaries, then the sections joined by a
    line break, then the footer, which restates that number; there is one
    section per summary; the section at 1-based position [i] is made of the
    label "SEGMENT i (Minutes (i-1)*5-i*5)", a rule and the [i]-th summary;
    and the generation time is the only part of the text that varies
    between two calls on the same list. *)
Theorem create_consolidated_report_structure (summaries : list string) :
  let n := Z.of_nat (length summaries) in
  ∃ sections : list string,
    length sections = length summaries
    ∧ (∀ generated,
         create_consolidated_report generated summaries =
         report_header generated n +:+ str_join nl sections +:+ report_footer n)
    ∧ (∀ generated,
         occurs_in ("Total Segments Analyzed: " +:+ str_of_int n)
           (report_header generated n))
    ∧ occurs_in ("Analysis complete. " +:+ str_of_int n +:+ " video segments")
        (report_footer n)
    ∧ (∀ (k : nat) summary,
         summaries !! k = Some summary →
         let i := Z.of_nat k + 1 in
         sections !! k =
         Some (nl +:+ "SEGMENT " +:+ str_of_int i +:+
               " (Minutes " +:+ str_of_int ((i - 1) * 5) +:+ "-" +:+
               str_of_int (i * 5) +:+ ")" +:+ nl +:+
               str_repeat "="%char 40 +:+ nl +:+ summary +:+ nl))
    ∧ (∃ before after, ∀ generated,
         create_consolidated_report generated summaries =
         before +:+ generated +:+ after).
Proof.
  intros n. exists (numbered_sections 1 summaries).
  split; [apply numbered_sections_length|].
  split; [intros g; apply create_consolidated_report_unfold|].
  split.
  { intros g. destruct (report_header_split g n) as (b & a & Heq & Hocc).
    rewrite Heq. now do 2 apply occurs_in_prepend. }
  split.
  { unfold report_footer.
    do 6 apply (occurs_in_prepend _ _ _).
    exists EmptyString, (" have been processed and summarized above." +:+ nl +:+
      "Each segment represents approximately 5 minutes of video content." +:+ nl +:+
      nl +:+ "Report generated by Video Analysis Service v1.0" +:+ nl).
    simpl. rewrite !str_app_assoc. reflexivity. }
  split.
  { intros k summary Hk i.
    rewrite (numbered_sections_lookup summaries 1 k summary Hk).
    replace (1 + Z.of_nat k) with i by (unfold i; lia).
    unfold report_section, section_label. rewrite !str_app_assoc. reflexivity. }
  destruct (report_header_split EmptyString n) as (b & a & Heq & _).
  exists b, (a +:+ str_join nl (numbered_sections 1 summaries) +:+ report_footer n).
  intros g. rewrite create_consolidated_report_unfold, Heq.
  now rewrite !str_app_assoc.
Qed.

(** ** Running the monad *)

Lemma observed_app (job_id : string) (t1 t2 : list Event) :
  observed job_id (t1 ++ t2) = observed job_id t1 ++ observed job_id t2.
Proof.
  induction t1 as [|ev t1 IH]; [reflexivity|].
  destruct ev; simpl; try apply IH.
  destruct (decide _); simpl; now rewrite IH.
Qed.

Lemma analyzed_app (t1 t2 : list Event) :
  analyzed (t1 ++ t2) = analyzed t1 ++ analyzed t2.
Proof.
  induction t1 as [|ev t1 IH]; [reflexivity|].
  destruct ev; simpl; now rewrite IH.
Qed.

Lemma lifecycle_path_app (a b c : Job.t) (l1 l2 : list Job.t) :
  lifecycle_path a l1 b → lifecycle_path b l2 c → lifecycle_path a (l1 ++ l2) c.
Proof.
  induction 1 as [|j r rows j' Hstep Hpath IH]; intros H2; [exact H2|].
  simpl. apply path_cons; [exact Hstep | now apply IH].
Qed.

Lemma lifecycle_path_one (a b : Job.t) : lifecycle_step a b → lifecycle_path a [b] b.
Proof. intros H. apply path_cons; [exact H | apply path_nil]. Qed.

Section Runs.

Variable env : Env.

Lemma update_job_run (job_id : string) (assign : Job.t → Job.t) (w : World) (j : Job.t) :
  jobs w !! job_id = Some j →
  update_job env job_id assign w =
  (Ok tt,
   with_ticks (S (ticks w))
     (with_jobs (<[job_id := Job.set_updated_at (utcnow env (ticks w)) (assign j)]> (jobs w)) w),
   [Committed job_id (Job.set_updated_at (utcnow env (ticks w)) (assign j))]).
Proof. intros H. unfold update_job. now rewrite H. Qed.

Lemma analyze_chunk_run (job_id : string) (i : Z) (chunk_path : string)
    (summaries : list string) (w : World) (j : Job.t) :
  jobs w !! job_id = Some j →
  analyze_chunk env job_id i chunk_path summaries w =
  match gemini env chunk_path with
  | inr text =>
      (Ok (summaries ++ [chunk_summary env i chunk_path]),
       with_ticks (S (ticks w))
         (with_jobs
            (<[job_id := Job.set_updated_at (utcnow env (ticks w))
                           (Job.set_chunks_processed (i + 1) j)]> (jobs w)) w),
       [Analyzing chunk_path (i + 1);
        Committed job_id
          (Job.set_updated_at (utcnow env (ticks w))
             (Job.set_chunks_processed (i + 1) j))])
  | inl e =>
      (Ok (summaries ++ [chunk_summary env i chunk_path]), w,
       [Analyzing chunk_path (i + 1)])
  end.
Proof.
  intros H.
  unfold analyze_chunk, try_except, bind, analyze_video_chunk_with_gemini, bind,
    emit, chunk_summary.
  destruct (gemini env chunk_path) as [e|text]; simpl.
  - reflexivity.
  - rewrite (update_job_run _ _ _ _ H). reflexivity.
Qed.

Lemma job_eta (j : Job.t) :
  Job.set_updated_at (Job.updated_at j)
    (Job.set_chunks_processed (Job.chunks_processed j) j) = j.
Proof. now destruct j. Qed.

(** The loop of step 2 never raises; it appends one summary per chunk,
    calls the analysis once per chunk in order, and writes nothing but
    the progress counter of the row. *)
Lemma analyze_chunks_run (job_id : string) (chunk_paths : list string) :
  ∀ (i : Z) (summaries : list string) (w : World) (j : Job.t),
    jobs w !! job_id = Some j →
    Job.status j = "PROCESSING" →
    Job.chunks_processed j ≤ i →
    i + Z.of_nat (length chunk_paths) ≤ Job.total_chunks j →
    ∃ w' tr k t,
      analyze_chunks env job_id i chunk_paths summaries w =
        (Ok (summaries ++ chunk_summaries env i chunk_paths), w', tr)
      ∧ lifecycle_path j (observed job_id tr)
          (Job.set_updated_at t (Job.set_chunks_processed k j))
      ∧ analyzed tr = numbered_chunks i chunk_paths
      ∧ jobs w' !! job_id = Some (Job.set_updated_at t (Job.set_chunks_processed k j))
      ∧ Job.chunks_processed j ≤ k ≤ i + Z.of_nat (length chunk_paths)
      ∧ uploads w' = uploads w ∧ reports w' = reports w ∧ chunks w' = chunks w.
Proof.
  induction chunk_paths as [|chunk_path rest IH]; intros i summaries w j Hj Hst Hcp Hn.
  - exists w, [], (Job.chunks_processed j), (Job.updated_at j).
    rewrite job_eta, app_nil_r. simpl in *.
    repeat split; try done; try lia. apply path_nil.
  - simpl analyze_chunks. unfold bind.
    rewrite (analyze_chunk_run _ _ _ _ _ _ Hj).
    simpl length in Hn.
    destruct (gemini env chunk_path) as [e|text] eqn:Hg.
    + destruct (IH (i + 1) (summaries ++ [chunk_summary env i chunk_path]) w j)
        as (w' & tr & k & t & Hrun & Hpath & Han & Hj' & Hk & Hu & Hr & Hc);
        try done; try lia.
      exists w', ([Analyzing chunk_path (i + 1)] ++ tr), k, t.
      rewrite Hrun. simpl. rewrite <- app_assoc. simpl.
      repeat split; try done; try lia. now rewrite Han.
    + set (j1 := Job.set_updated_at (utcnow env (ticks w))
                   (Job.set_chunks_processed (i + 1) j)).
      set (w1 := with_ticks _ _).
      destruct (IH (i + 1) (summaries ++ [chunk_summary env i chunk_path]) w1 j1)
        as (w' & tr & k & t & Hrun & Hpath & Han & Hj' & Hk & Hu & Hr & Hc);
        try done; try (simpl; lia).
      { unfold w1. simpl. apply lookup_insert_eq. }
      exists w', ([Analyzing chunk_path (i + 1); Committed job_id j1] ++ tr), k, t.
      rewrite Hrun. simpl. rewrite <- app_assoc. simpl.
      destruct (decide (job_id = job_id)) as [_|Hne]; [|done].
      simpl in Hk.
      repeat split; try done; try lia.
      * apply path_cons; [|exact Hpath].
        apply step_progress; [exact Hst | lia].
      * now rewrite Han.
Qed.

(** The cleanup loop never raises, writes no row and leaves no event. *)
Lemma cleanup_chunks_run (chunk_paths : list string) :
  ∀ w, ∃ w', cleanup_chunks env chunk_paths w = (Ok tt, w', []) ∧ jobs w' = jobs w.
Proof.
  induction chunk_paths as [|p rest IH]; intros w.
  - exists w. done.
  - simpl. unfold bind, try_except, os_remove.
    destruct (remove_error env p) as [e|]; simpl.
    + destruct (IH w) as (w' & -> & ?). exists w'. done.
    + destruct (file_exists w p); simpl.
      * destruct (IH (unlink p w)) as (w' & -> & Hjobs). exists w'.
        rewrite Hjobs. done.
      * destruct (IH w) as (w' & -> & ?). exists w'. done.
Qed.

(** A run of the background task on a row that was just inserted, when
    FFmpeg leaves at least one chunk: the rows written are the start of
    the processing, the total, the progress of the loop, and last the
    completion or, when the report file cannot be written, the failure. *)
Lemma process_video_job_chunks_run (job_id video_path : string) (w : World)
    (j : Job.t) (chunk_paths : list string) :
  jobs w !! job_id = Some j →
  Job.status j = "PENDING" →
  Job.chunks_processed j = 0 →
  Job.total_chunks j = 0 →
  ffmpeg env job_id video_path = FfmpegDone chunk_paths →
  chunk_paths ≠ [] →
  let r := process_video_job env job_id video_path w in
  let n := Z.of_nat (length chunk_paths) in
  ∃ t1 t2 t3 t4 k generated rows,
    let j1 := Job.set_updated_at t1 (Job.set_status "PROCESSING" j) in
    let j2 := Job.set_updated_at t2 (Job.set_total_chunks n j1) in
    let j3 := Job.set_updated_at t3 (Job.set_chunks_processed k j2) in
    let final_report :=
      create_consolidated_report generated (chunk_summaries env 0 chunk_paths) in
    let j4 :=
      match write_error env (report_path_of job_id) with
      | None =>
          Job.set_updated_at t4
            (Job.set_chunks_processed n
               (Job.set_report (Some final_report) (Job.set_status "COMPLETE" j3)))
      | Some e =>
          Job.set_updated_at t4 (Job.set_error (Some e) (Job.set_status "FAILED" j3))
      end in
    outcome r = Ok tt
    ∧ observed job_id (trace r) = j1 :: j2 :: rows ++ [j4]
    ∧ lifecycle_path j2 rows j3
    ∧ 0 ≤ k ≤ n
    ∧ analyzed (trace r) = numbered_chunks 0 chunk_paths
    ∧ jobs (world_after r) !! job_id = Some j4
    ∧ (is_Some (write_error env (report_path_of job_id)) →
       chunks (world_after r) = <[chunk_dir_of job_id := chunk_paths]> (chunks w)).
Proof.
  intros Hj Hst Hcp Htot Hff Hne r n.
  unfold r, process_video_job, try_except, bind.
  rewrite (update_job_run _ _ _ _ Hj).
  unfold chunk_video_with_ffmpeg. rewrite Hff. unfold bind, modify, ret.
  destruct chunk_paths as [|c cs]; [done|].
  set (paths := c :: cs) in *.
  set (j1 := Job.set_updated_at (utcnow env (ticks w)) (Job.set_status "PROCESSING" j)).
  set (w1 := with_chunks _ _).
  assert (Hj1 : jobs w1 !! job_id = Some j1) by (unfold w1; simpl; apply lookup_insert_eq).
  rewrite (update_job_run _ _ _ _ Hj1).
  set (j2 := Job.set_updated_at (utcnow env (ticks w1)) (Job.set_total_chunks n j1)).
  set (w2 := with_ticks _ (with_jobs _ w1)).
  assert (Hj2 : jobs w2 !! job_id = Some j2) by (unfold w2; simpl; apply lookup_insert_eq).
  destruct (analyze_chunks_run job_id paths 0 [] w2 j2)
    as (w3 & tr & k & t3 & Hrun & Hpath & Han & Hj3 & Hk & _ & _ & Hchunks);
    try done; try (simpl; lia).
  rewrite Hrun. unfold read_strftime_now, write_text.
  simpl in Hk. rewrite Hcp in Hk.
  assert (Hkn : 0 ≤ k ≤ n) by (unfold n, paths; simpl length; lia).
  exists (utcnow env (ticks w)), (utcnow env (ticks w1)), t3.
  destruct (write_error env (report_path_of job_id)) as [e|] eqn:Hw.
  - cbn [app]. 
    set (w4 := with_ticks _ w3).
    assert (Hj4 : jobs w4 !! job_id = Some (Job.set_updated_at t3 (Job.set_chunks_processed k j2)))
      by exact Hj3.
    rewrite (update_job_run _ _ _ _ Hj4).
    exists (utcnow env (ticks w4)), k, (strftime_now env (ticks w3)), (observed job_id tr).
    cbn [outcome trace world_after fst snd].
    rewrite !app_nil_r. cbn [observed analyzed].
    rewrite !observed_app, !analyzed_app, Han. cbn [observed analyzed].
    destruct (decide (job_id = job_id)); [|done].
    rewrite !app_nil_r.
    split_and!; try done; try lia;
      first [apply lookup_insert_eq | intros _; simpl; exact Hchunks].
  - set (w4 := with_reports _ _).
    assert (Hj4 : jobs w4 !! job_id = Some (Job.set_updated_at t3 (Job.set_chunks_processed k j2)))
      by exact Hj3.
    rewrite (update_job_run _ _ _ _ Hj4).
    set (w5 := with_ticks _ (with_jobs _ w4)).
    destruct (cleanup_chunks_run paths w5) as (w6 & Hclean & Hjobs).
    rewrite Hclean.
    exists (utcnow env (ticks w4)), k, (strftime_now env (ticks w3)), (observed job_id tr).
    cbn [outcome trace world_after fst snd].
    rewrite !app_nil_r. cbn [observed analyzed].
    rewrite !observed_app, !analyzed_app, Han. cbn [observed analyzed].
    destruct (decide (job_id = job_id)); [|done].
    rewrite !app_nil_r, Hjobs.
    split_and!; try done; try lia;
      first [unfold w5; simpl; apply lookup_insert_eq | intros [? [=]]].
Qed.

(** A run of the background task when the segmentation step is fatal:
    the row goes to PROCESSING and then to FAILED with the text of the
    exception, and the analysis is never called. *)
Lemma process_video_job_fatal_run (job_id video_path : string) (w : World)
    (j : Job.t) (e : string) :
  jobs w !! job_id = Some j →
  segmentation_error env job_id video_path = Some e →
  let r := process_video_job env job_id video_path w in
  ∃ t1 t2,
    let j1 := Job.set_updated_at t1 (Job.set_status "PROCESSING" j) in
    let j2 := Job.set_updated_at t2 (Job.set_error (Some e) (Job.set_status "FAILED" j1)) in
    outcome r = Ok tt
    ∧ observed job_id (trace r) = [j1; j2]
    ∧ analyzed (trace r) = []
    ∧ jobs (world_after r) !! job_id = Some j2.
Proof.
  intros Hj Hseg r.
  unfold r, process_video_job, try_except, bind.
  rewrite (update_job_run _ _ _ _ Hj).
  unfold segmentation_error in Hseg. unfold chunk_video_with_ffmpeg.
  set (j1 := Job.set_updated_at (utcnow env (ticks w)) (Job.set_status "PROCESSING" j)).
  destruct (ffmpeg env job_id video_path) as [[|c cs]|files stderr|e'];
    [| discriminate | |]; injection Hseg as <-;
    unfold bind, modify, ret, raise;
    set (w1 := with_chunks _ _);
    assert (Hj1 : jobs w1 !! job_id = Some j1)
      by (unfold w1; simpl; apply lookup_insert_eq);
    rewrite (update_job_run _ _ _ _ Hj1);
    exists (utcnow env (ticks w)), (utcnow env (ticks w1));
    cbn [outcome trace world_after fst snd app observed analyzed];
    (destruct (decide (job_id = job_id)); [|done]);
    split_and!; try done; apply lookup_insert_eq.
Qed.

(** The rows a run of the background task writes, starting from a row
    that was just inserted, form a path of the lifecycle, and the last
    of them is the row the table holds afterwards. *)
Lemma process_video_job_lifecycle (job_id video_path : string) (w : World)
    (j : Job.t) :
  jobs w !! job_id = Some j →
  Job.status j = "PENDING" →
  Job.chunks_processed j = 0 →
  Job.total_chunks j = 0 →
  let r := process_video_job env job_id video_path w in
  ∃ j', lifecycle_path j (observed job_id (trace r)) j'
        ∧ jobs (world_after r) !! job_id = Some j'.
Proof.
  intros Hj Hst Hcp Htot r.
  destruct (segmentation_error env job_id video_path) as [e|] eqn:Hseg.
  - destruct (process_video_job_fatal_run _ video_path _ _ _ Hj Hseg)
      as (t1 & t2 & _ & Hobs & _ & Hend).
    eexists. split; [|exact Hend]. fold r in Hobs |- *. rewrite Hobs.
    apply path_cons; [now apply step_start|].
    apply lifecycle_path_one. now apply step_fail.
  - unfold segmentation_error in Hseg.
    destruct (ffmpeg env job_id video_path) as [[|c cs]|files stderr|e'] eqn:Hff;
      try discriminate.
    destruct (process_video_job_chunks_run _ _ _ _ _ Hj Hst Hcp Htot Hff)
      as (t1 & t2 & t3 & t4 & k & g & rows & _ & Hobs & Hpath & Hk & _ & Hend & _);
      [done|].
    eexists. split; [|exact Hend]. fold r in Hobs |- *. rewrite Hobs.
    apply path_cons; [now apply step_start|].
    apply path_cons.
    { apply step_total; try done. simpl length. lia. }
    eapply lifecycle_path_app; [exact Hpath|].
    apply lifecycle_path_one.
    destruct (write_error env (report_path_of job_id)) as [e|].
    + now apply step_fail.
    + match type of Hpath with
      | lifecycle_path _ _ ?j3 =>
          refine (step_complete j3 t4 _ eq_refl _); simpl; lia
      end.
Qed.

(** The whole life of a job under [POST /v1/analyze]: either no row of
    that id is written, or the first row written is the new row, the rows
    after it form a path of the lifecycle, and the table ends with the
    last of them. *)
Lemma post_analyze_lifecycle (job_id : string) (file : Upload) (w : World) :
  let r := post_analyze env job_id file w in
  let rows := observed job_id (trace r) in
  rows = [] ∨
  ∃ j rest j', rows = j :: rest ∧ new_row j ∧ lifecycle_path j rest j'
               ∧ jobs (world_after r) !! job_id = Some j'.
Proof.
  intros r rows. unfold rows, r, post_analyze, bind at 1.
  unfold create_analysis_job.
  destruct (negb _); [left; reflexivity|].
  set (save_path := path_join UPLOAD_DIR _).
  destruct (write_error env save_path) as [e|]; [left; reflexivity|].
  unfold bind, modify, read_utcnow, get_world, emit, ret. cbn [jobs with_ticks with_uploads].
  destruct (jobs w !! job_id) as [old|] eqn:Hold; [left; reflexivity|].
  cbn [app].
  set (j := Job.mk job_id "PENDING" _ _ save_path _ _ None None 0 0).
  set (w1 := with_jobs _ _).
  assert (Hj : jobs w1 !! job_id = Some j) by (unfold w1; simpl; apply lookup_insert_eq).
  destruct (process_video_job_lifecycle job_id save_path w1 j Hj) as (j' & Hpath & Hend);
    try done.
  destruct (process_video_job env job_id save_path w1) as [[res w2] tr] eqn:Hrun.
  cbn [trace world_after fst snd] in Hpath, Hend.
  right. exists j, (observed job_id tr), j'.
  split_and!; try done.
  - destruct res; cbn [trace snd app observed];
      (destruct (decide (job_id = job_id)); [|done]);
      rewrite ?app_nil_r; reflexivity.
  - destruct res; exact Hend.
Qed.

End Runs.

(** ** The lifecycle *)

Lemma lifecycle_path_last (j j' : Job.t) (rows : list Job.t) :
  lifecycle_path j rows j' → last (j :: rows) = Some j'.
Proof.
  induction 1 as [j|j r rows j' Hstep Hpath IH]; [reflexivity|].
  rewrite last_cons_cons. exact IH.
Qed.

Lemma lifecycle_path_adjacent (j j' : Job.t) (rows : list Job.t) :
  lifecycle_path j rows j' →
  ∀ a b, adjacent a b (j :: rows) → lifecycle_step a b.
Proof.
  induction 1 as [j|j r rows j' Hstep Hpath IH]; intros a b (l1 & l2 & Heq).
  - destruct l1 as [|x [|y l1]]; discriminate.
  - destruct l1 as [|x l1]; simpl in Heq.
    + injection Heq as -> -> _. exact Hstep.
    + injection Heq as _ Heq. apply IH. now exists l1, l2.
Qed.

Lemma lifecycle_path_forall (P : Job.t → Prop) (j j' : Job.t) (rows : list Job.t) :
  (∀ a b, P a → lifecycle_step a b → P b) →
  lifecycle_path j rows j' → P j → Forall P (j :: rows).
Proof.
  intros Hpres. induction 1 as [j|j r rows j' Hstep Hpath IH]; intros Hj.
  - repeat constructor. exact Hj.
  - constructor; [exact Hj|]. apply IH. now apply (Hpres j).
Qed.

Lemma new_row_invariant (j : Job.t) : new_row j → row_invariant j.
Proof.
  intros (Hst & Hr & He & Hcp & Htot). unfold row_invariant.
  rewrite Hst, Hr, He, Hcp, Htot. split_and!; try done; try lia.
Qed.

Lemma lifecycle_invariant (a b : Job.t) :
  row_invariant a → lifecycle_step a b → row_invariant b.
Proof.
  intros (Hr & He & Hcp) Hstep.
  assert (Hnone : Job.status a = "PENDING" ∨ Job.status a = "PROCESSING" →
                  Job.report a = None ∧ Job.error a = None).
  { intros Hs. split.
    - destruct (Job.report a) eqn:E; [|done].
      assert (Job.status a = "COMPLETE") by (apply Hr; done).
      destruct Hs; congruence.
    - destruct (Job.error a) eqn:E; [|done].
      assert (Job.status a = "FAILED") by (apply He; done).
      destruct Hs; congruence. }
  destruct Hstep as [j t Hs|j t n Hs Ht Hc Hn|j t k Hs Hk|j t text Hs Hn|j t e Hs];
    (destruct Hnone as [Hrn Hen]; [by auto|]);
    unfold row_invariant; simpl; rewrite ?Hrn, ?Hen, ?Hs;
    split_and!; try done; try lia.
Qed.

Lemma lifecycle_step_status (a b : Job.t) :
  lifecycle_step a b → status_move (Job.status a) (Job.status b).
Proof.
  intros [j t Hs|j t n Hs _ _ _|j t k Hs _|j t text Hs _|j t e Hs];
    unfold status_move; simpl; rewrite Hs; auto 6.
Qed.

Lemma status_move_not_terminal (s s' : string) :
  status_move s s' → s ≠ "COMPLETE" ∧ s ≠ "FAILED".
Proof. intros [[-> _]|[-> _]]; split; discriminate. Qed.

(** C2. Over the whole life of a job under [POST /v1/analyze], the rows
    an observer can read start with status PENDING; from one observation
    to the next the status goes from PENDING to PROCESSING, stays
    PROCESSING, or goes from PROCESSING to COMPLETE or to FAILED; no row
    is written after one with status COMPLETE or FAILED; and the row the
    table holds in the end is the last one written.  (The table is taken
    to answer every query and commit.) *)
Theorem status_follows_lifecycle (env : Env) (job_id : string) (file : Upload)
    (w : World) :
  let r := post_analyze env job_id file w in
  let rows := observed job_id (trace r) in
  (∀ j, head rows = Some j → Job.status j = "PENDING")
  ∧ (∀ a b, adjacent a b rows → status_move (Job.status a) (Job.status b))
  ∧ (∀ before a after,
       rows = before ++ a :: after →
       Job.status a = "COMPLETE" ∨ Job.status a = "FAILED" →
       after = [])
  ∧ (∀ j, last rows = Some j → jobs (world_after r) !! job_id = Some j).
Proof.
  intros r rows.
  destruct (post_analyze_lifecycle env job_id file w)
    as [Hnil|(j & rest & j' & Hrows & Hnew & Hpath & Hend)];
    fold r rows in Hnil || fold r rows in Hrows, Hend.
  - rewrite Hnil. split_and!.
    + discriminate.
    + intros a b (l1 & l2 & Heq). destruct l1; discriminate.
    + intros before a after Heq. destruct before; discriminate.
    + discriminate.
  - rewrite Hrows.
    assert (Hadj : ∀ a b, adjacent a b (j :: rest) →
                          status_move (Job.status a) (Job.status b)).
    { intros a b Hab. apply lifecycle_step_status.
      now apply (lifecycle_path_adjacent j j' rest). }
    split_and!.
    + intros j0 [= <-]. apply Hnew.
    + exact Hadj.
    + intros before a [|b after] Heq Hterm; [reflexivity|].
      assert (Hab : adjacent a b (j :: rest)) by (exists before, after; exact Heq).
      apply Hadj, status_move_not_terminal in Hab. destruct Hterm, Hab; congruence.
    + intros j0 Hlast. rewrite (lifecycle_path_last j j' rest Hpath) in Hlast.
      injection Hlast as <-. exact Hend.
Qed.

(** C4. In every row an observer can read over the life of a job, the
    report is set exactly when the status is COMPLETE, the error is set
    exactly when the status is FAILED, and the two are never both set. *)
Theorem report_and_error_follow_status (env : Env) (job_id : string) (file : Upload)
    (w : World) (j : Job.t) :
  j ∈ observed job_id (trace (post_analyze env job_id file w)) →
  (Job.report j ≠ None ↔ Job.status j = "COMPLETE")
  ∧ (Job.error j ≠ None ↔ Job.status j = "FAILED")
  ∧ ¬ (Job.report j ≠ None ∧ Job.error j ≠ None).
Proof.
  intros Hin.
  destruct (post_analyze_lifecycle env job_id file w)
    as [Hnil|(j0 & rest & j' & Hrows & Hnew & Hpath & _)].
  - rewrite Hnil in Hin. now apply not_elem_of_nil in Hin.
  - rewrite Hrows in Hin.
    pose proof (lifecycle_path_forall row_invariant j0 j' rest lifecycle_invariant
                  Hpath (new_row_invariant j0 Hnew)) as Hall.
    rewrite Forall_forall in Hall. destruct (Hall j Hin) as (Hr & He & _).
    split_and!; [exact Hr | exact He |].
    intros [Hrep Herr]. apply Hr in Hrep. apply He in Herr. congruence.
Qed.

(** C6. In every row an observer can read over the life of a job, both
    counters are non-negative and [chunks_processed] does not exceed
    [total_chunks]; in particular this holds from the commit that sets
    [total_chunks] on. *)
Theorem progress_within_total (env : Env) (job_id : string) (file : Upload)
    (w : World) (j : Job.t) :
  j ∈ observed job_id (trace (post_analyze env job_id file w)) →
  0 ≤ Job.chunks_processed j
  ∧ 0 ≤ Job.total_chunks j
  ∧ Job.chunks_processed j ≤ Job.total_chunks j.
Proof.
  intros Hin.
  destruct (post_analyze_lifecycle env job_id file w)
    as [Hnil|(j0 & rest & j' & Hrows & Hnew & Hpath & _)].
  - rewrite Hnil in Hin. now apply not_elem_of_nil in Hin.
  - rewrite Hrows in Hin.
    pose proof (lifecycle_path_forall row_invariant j0 j' rest lifecycle_invariant
                  Hpath (new_row_invariant j0 Hnew)) as Hall.
    rewrite Forall_forall in Hall. destruct (Hall j Hin) as (_ & _ & Hcp). lia.
Qed.

(** C10. Over the life of a job, when the row read at one observation has
    status PROCESSING and the row read at the next has status FAILED, the
    second differs from the first in [status], [error] and [updated_at]
    only: the counters, the report, the reference to the input, the id
    and the creation time are those of the row at the time of the fatal
    error, and the error is set. *)
Theorem failure_keeps_progress (env : Env) (job_id : string) (file : Upload)
    (w : World) (a b : Job.t) :
  adjacent a b (observed job_id (trace (post_analyze env job_id file w))) →
  Job.status a = "PROCESSING" →
  Job.status b = "FAILED" →
  Job.chunks_processed b = Job.chunks_processed a
  ∧ Job.total_chunks b = Job.total_chunks a
  ∧ Job.report b = Job.report a
  ∧ Job.video_path b = Job.video_path a
  ∧ Job.video_filename b = Job.video_filename a
  ∧ Job.video_size b = Job.video_size a
  ∧ Job.id b = Job.id a
  ∧ Job.created_at b = Job.created_at a
  ∧ Job.error b ≠ None.
Proof.
  intros Hadj Ha Hb.
  destruct (post_analyze_lifecycle env job_id file w)
    as [Hnil|(j0 & rest & j' & Hrows & Hnew & Hpath & _)].
  - rewrite Hnil in Hadj. destruct Hadj as (l1 & l2 & Heq). destruct l1; discriminate.
  - rewrite Hrows in Hadj.
    pose proof (lifecycle_path_adjacent j0 j' rest Hpath a b Hadj) as Hstep.
    destruct Hstep as [j t Hs|j t n Hs _ _ _|j t k Hs _|j t text Hs _|j t e Hs];
      simpl in Hb; try congruence.
    simpl. split_and!; done.
Qed.

(** ** Partial failure *)

Lemma chunk_summaries_length (env : Env) (chunk_paths : list string) :
  ∀ i, length (chunk_summaries env i chunk_paths) = length chunk_paths.
Proof. induction chunk_paths as [|p rest IH]; intros i; simpl; [|rewrite IH]; reflexivity. Qed.

Lemma chunk_summaries_lookup (env : Env) (chunk_paths : list string) :
  ∀ i (k : nat) chunk_path,
    chunk_paths !! k = Some chunk_path →
    chunk_summaries env i chunk_paths !! k =
    Some (chunk_summary env (i + Z.of_nat k) chunk_path).
Proof.
  induction chunk_paths as [|p rest IH]; intros i k chunk_path H; [discriminate|].
  destruct k as [|k]; simpl in *.
  - injection H as ->. now rewrite Z.add_0_r.
  - rewrite (IH (i + 1) k chunk_path H). do 2 f_equal. lia.
Qed.

(** C1. When the segmentation of a job that was just submitted yields
    N >= 1 chunks and the report file can be written, the job ends with
    status COMPLETE and [chunks_processed] equal to N whatever the analysis
    of the chunks does.  Its report is the header for N segments, N
    sections in the order of the chunks, and the footer; the section of a
    chunk whose analysis failed holds, under the label of its number, the
    text "Error processing chunk k: Failed to analyze chunk k: " followed
    by the reason; the section of any other chunk holds the stripped text
    of its analysis. *)
Theorem failed_segment_does_not_fail_job (env : Env) (job_id video_path : string)
    (w : World) (j : Job.t) (chunk_paths : list string) :
  jobs w !! job_id = Some j →
  new_row j →
  ffmpeg env job_id video_path = FfmpegDone chunk_paths →
  (1 ≤ length chunk_paths)%nat →
  write_error env (report_path_of job_id) = None →
  let r := process_video_job env job_id video_path w in
  let n := Z.of_nat (length chunk_paths) in
  ∃ j' generated sections,
    jobs (world_after r) !! job_id = Some j'
    ∧ Job.status j' = "COMPLETE"
    ∧ Job.error j' = None
    ∧ Job.chunks_processed j' = n
    ∧ Job.total_chunks j' = n
    ∧ Job.report j' =
        Some (report_header generated n +:+ str_join nl sections +:+ report_footer n)
    ∧ length sections = length chunk_paths
    ∧ (∀ (k : nat) chunk_path reason,
         chunk_paths !! k = Some chunk_path →
         gemini env chunk_path = inl reason →
         let number := str_of_int (Z.of_nat k + 1) in
         sections !! k =
         Some (report_section (Z.of_nat k + 1)
                 ("Error processing chunk " +:+ number +:+
                  ": Failed to analyze chunk " +:+ number +:+ ": " +:+ reason)))
    ∧ (∀ (k : nat) chunk_path text,
         chunk_paths !! k = Some chunk_path →
         gemini env chunk_path = inr text →
         sections !! k = Some (report_section (Z.of_nat k + 1) (strip text))).
Proof.
  intros Hj (Hst & Hrep & Herr & Hcp & Htot) Hff Hlen Hw r n.
  destruct (process_video_job_chunks_run env job_id video_path w j chunk_paths
              Hj Hst Hcp Htot Hff)
    as (t1 & t2 & t3 & t4 & k0 & generated & rows & _ & _ & _ & _ & _ & Hend & _).
  { intros ->. simpl in Hlen. lia. }
  rewrite Hw in Hend. fold r in Hend.
  set (summaries := chunk_summaries env 0 chunk_paths) in *.
  assert (Hsec : ∀ (k : nat) chunk_path,
            chunk_paths !! k = Some chunk_path →
            numbered_sections 1 summaries !! k =
            Some (report_section (Z.of_nat k + 1)
                    (chunk_summary env (Z.of_nat k) chunk_path))).
  { intros k chunk_path Hk.
    rewrite (numbered_sections_lookup summaries 1 k
               (chunk_summary env (0 + Z.of_nat k) chunk_path)).
    - do 2 f_equal. lia.
    - now apply chunk_summaries_lookup. }
  eexists _, generated, (numbered_sections 1 summaries).
  split; [exact Hend|]. simpl.
  split_and!; try done.
  - rewrite create_consolidated_report_unfold. unfold summaries.
    now rewrite chunk_summaries_length.
  - rewrite numbered_sections_length. apply chunk_summaries_length.
  - intros k chunk_path reason Hk Hg.
    rewrite (Hsec k chunk_path Hk). unfold chunk_summary. rewrite Hg.
    do 2 f_equal; now rewrite ?str_app_assoc.
  - intros k chunk_path text Hk Hg.
    rewrite (Hsec k chunk_path Hk). unfold chunk_summary. now rewrite Hg.
Qed.

(** C3. When the segmentation of a job yields no chunk, the job ends with
    status FAILED and the error "No video chunks were created", no report
    is set by the run, and the analysis function is not called. *)
Theorem no_chunks_fails_without_analysis (env : Env) (job_id video_path : string)
    (w : World) (j : Job.t) :
  jobs w !! job_id = Some j →
  ffmpeg env job_id video_path = FfmpegDone [] →
  let r := process_video_job env job_id video_path w in
  ∃ j',
    jobs (world_after r) !! job_id = Some j'
    ∧ Job.status j' = "FAILED"
    ∧ Job.error j' = Some "No video chunks were created"
    ∧ Job.report j' = Job.report j
    ∧ analyzed (trace r) = [].
Proof.
  intros Hj Hff r.
  destruct (process_video_job_fatal_run env job_id video_path w j
              "No video chunks were created" Hj)
    as (t1 & t2 & _ & _ & Han & Hend).
  { unfold segmentation_error. now rewrite Hff. }
  eexists. split; [exact Hend|]. split_and!; done.
Qed.

(** ** Status queries and deletion *)

Lemma get_status_unknown (job_id : string) (w : World) :
  jobs w !! job_id = None → get_status job_id w = HttpError 404 "Job not found".
Proof. intros H. unfold get_status. now rewrite H. Qed.

(** A deletion that answers without an error has removed the row and
    the chunk directory of the job. *)
Lemma delete_job_done (env : Env) (job_id message : string) (w w' : World)
    (tr : list Event) :
  delete_job env job_id w = (Ok (HttpOk message), w', tr) →
  jobs w' !! job_id = None ∧ chunks w' !! chunk_dir_of job_id = None.
Proof.
  unfold delete_job, bind at 1, get_world.
  destruct (jobs w !! job_id) as [db_job|] eqn:Hj; [|discriminate].
  unfold try_except, bind, get_world, modify, emit, ret, os_remove, rmtree.
  intros Hrun.
  repeat (case_match; simplify_eq/=);
    (split; [apply lookup_delete_eq|]);
    try apply lookup_delete_eq;
    match goal with
    | H : path_exists _ (chunk_dir_of job_id) = false |- _ =>
        unfold path_exists in H; apply orb_false_elim in H as [_ H];
        apply bool_decide_eq_false in H; now apply eq_None_not_Some
    end.
Qed.

(** C9. A status query for an id that is not in the table answers 404
    "Job not found"; and after [delete_job] has deleted an existing job
    (a COMPLETE one in particular), a status query for its id answers 404
    "Job not found" and the chunk directory of the job is gone. *)
Theorem unknown_and_deleted_jobs_not_found (env : Env) (job_id : string) (w : World) :
  (jobs w !! job_id = None →
   get_status job_id w = HttpError 404 "Job not found")
  ∧ (∀ j message,
       jobs w !! job_id = Some j →
       outcome (delete_job env job_id w) = Ok (HttpOk message) →
       let w' := world_after (delete_job env job_id w) in
       get_status job_id w' = HttpError 404 "Job not found"
       ∧ chunks w' !! chunk_dir_of job_id = None).
Proof.
  split; [apply get_status_unknown|].
  intros j message _ Hout w'. unfold w'.
  destruct (delete_job env job_id w) as [[res w1] tr] eqn:Hrun.
  cbn [outcome world_after fst snd] in *. subst res.
  destruct (delete_job_done env job_id message w w1 tr Hrun) as [Hrow Hdir].
  split; [now apply get_status_unknown | exact Hdir].
Qed.

(** ** Where the code leaves the path of the specification *)

(** A chunk whose analysis raises leaves the world as it was: the handler
    appends the placeholder and commits nothing. *)
Lemma analyze_chunk_failed (env : Env) (job_id : string) (i : Z) (chunk_path : string)
    (summaries : list string) (w : World) (reason : string) :
  gemini env chunk_path = inl reason →
  analyze_chunk env job_id i chunk_path summaries w =
  (Ok (summaries ++ [chunk_summary env i chunk_path]), w,
   [Analyzing chunk_path (i + 1)]).
Proof.
  intros Hg.
  unfold analyze_chunk, try_except, bind, analyze_video_chunk_with_gemini, bind,
    emit, chunk_summary.
  rewrite Hg. reflexivity.
Qed.

(** When the report file cannot be written, the run ends with every chunk
    file that FFmpeg wrote still in the chunk directory of the job. *)
Lemma report_write_failure_keeps_chunks (env : Env) (job_id video_path : string)
    (w : World) (j : Job.t) (chunk_paths : list string) (e : string) :
  jobs w !! job_id = Some j →
  new_row j →
  ffmpeg env job_id video_path = FfmpegDone chunk_paths →
  chunk_paths ≠ [] →
  write_error env (report_path_of job_id) = Some e →
  chunks (world_after (process_video_job env job_id video_path w)) !! chunk_dir_of job_id
  = Some chunk_paths.
Proof.
  intros Hj (Hst & _ & _ & Hcp & Htot) Hff Hne Hw.
  destruct (process_video_job_chunks_run env job_id video_path w j chunk_paths
              Hj Hst Hcp Htot Hff Hne)
    as (t1 & t2 & t3 & t4 & k & g & rows & _ & _ & _ & _ & _ & _ & Hchunks).
  rewrite Hchunks by (rewrite Hw; eauto).
  apply lookup_insert_eq.
Qed.

(** ** The scenarios, run *)

Example create_analysis_job_clip :
  create_analysis_job second_chunk_fails "job-1" clip empty_world =
  (Ok (HttpOk (mkTicket "job-1" "/v1/analyze/status/job-1" (Some "clip.mp4") 6,
               "uploads/job-1.mp4")),
   submitted_world,
   [Committed "job-1" submitted_row]).
Proof. vm_compute. reflexivity. Qed.

Example statuses_second_chunk_fails :
  Job.status <$> observed "job-1" (trace (post_analyze second_chunk_fails "job-1" clip empty_world))
  = ["PENDING"; "PROCESSING"; "PROCESSING"; "PROCESSING"; "PROCESSING"; "COMPLETE"].
Proof. vm_compute. reflexivity. Qed.

Example statuses_report_write_fails :
  Job.status <$> observed "job-1" (trace (post_analyze report_write_fails "job-1" clip empty_world))
  = ["PENDING"; "PROCESSING"; "PROCESSING"; "PROCESSING"; "FAILED"].
Proof. vm_compute. reflexivity. Qed.

(** C5, at the run of a two-chunk job whose first analysis fails.  The
    trace shows the start, the commit of the total, the analysis of chunk
    1, the analysis of chunk 2 with no commit in between, then the commit
    of the counter 2 and the completion: when the second analysis begins
    the table still holds [chunks_processed = 0], and the counter then
    moves from 0 to 2 in one commit. *)
Theorem failed_chunk_is_not_counted :
  event_view <$> trace (process_video_job first_chunk_fails "job-1" "uploads/job-1.mp4"
                          submitted_world)
  = [("PROCESSING", 0); ("PROCESSING", 0);
     ("analyze", 1); ("analyze", 2);
     ("PROCESSING", 2); ("COMPLETE", 2)].
Proof. vm_compute. reflexivity. Qed.

(** C8, at the run of a one-chunk job whose report file cannot be
    written.  The job ends with status FAILED and the chunk file is still
    in the chunk directory of the job. *)
Theorem fatal_abort_leaves_chunk_files :
  let r := process_video_job report_write_fails "job-1" "uploads/job-1.mp4"
             submitted_world in
  Job.status <$> jobs (world_after r) !! "job-1" = Some "FAILED"
  ∧ chunks (world_after r) !! chunk_dir_of "job-1" = Some [chunk_000]
  ∧ file_exists (world_after r) chunk_000 = true.
Proof. vm_compute. repeat split. Qed.

(** ** Instances *)

Lemma failed_segment_does_not_fail_job_witness :
  let r := process_video_job second_chunk_fails "job-1" "uploads/job-1.mp4"
             submitted_world in
  ∃ j' generated sections,
    jobs (world_after r) !! "job-1" = Some j'
    ∧ Job.status j' = "COMPLETE"
    ∧ Job.chunks_processed j' = 3
    ∧ Job.report j' =
        Some (report_header generated 3 +:+ str_join nl sections +:+ report_footer 3)
    ∧ length sections = 3%nat
    ∧ sections !! 1%nat =
        Some (report_section 2
                "Error processing chunk 2: Failed to analyze chunk 2: timeout").
Proof.
  intros r.
  destruct (failed_segment_does_not_fail_job second_chunk_fails "job-1"
              "uploads/job-1.mp4" submitted_world submitted_row
              [chunk_000; chunk_001; chunk_002])
    as (j' & generated & sections & Hrow & Hst & _ & Hcp & _ & Hrep & Hlen & Hfail & _).
  - vm_compute. reflexivity.
  - vm_compute. repeat split.
  - reflexivity.
  - simpl. lia.
  - reflexivity.
  - exists j', generated, sections.
    repeat split; try assumption.
    apply (Hfail 1%nat chunk_001 "timeout"); reflexivity.
Defined.

Lemma no_chunks_fails_without_analysis_witness :
  let r := process_video_job no_chunks "job-1" "uploads/job-1.mp4" submitted_world in
  ∃ j',
    jobs (world_after r) !! "job-1" = Some j'
    ∧ Job.status j' = "FAILED"
    ∧ Job.error j' = Some "No video chunks were created"
    ∧ Job.report j' = Job.report submitted_row
    ∧ analyzed (trace r) = [].
Proof.
  apply (no_chunks_fails_without_analysis no_chunks "job-1" "uploads/job-1.mp4"
           submitted_world submitted_row).
  - vm_compute. reflexivity.
  - reflexivity.
Defined.

Lemma report_and_error_follow_status_witness :
  failed_row ∈ observed "job-1" (trace (post_analyze report_write_fails "job-1" clip empty_world))
  ∧ (Job.report failed_row ≠ None ↔ Job.status failed_row = "COMPLETE")
  ∧ (Job.error failed_row ≠ None ↔ Job.status failed_row = "FAILED")
  ∧ ¬ (Job.report failed_row ≠ None ∧ Job.error failed_row ≠ None).
Proof.
  assert (H : failed_row ∈ observed "job-1"
                (trace (post_analyze report_write_fails "job-1" clip empty_world)))
    by (vm_compute; repeat constructor).
  split; [exact H|].
  exact (report_and_error_follow_status report_write_fails "job-1" clip empty_world
           failed_row H).
Defined.

Lemma progress_within_total_witness :
  progress_row ∈ observed "job-1" (trace (post_analyze report_write_fails "job-1" clip empty_world))
  ∧ 0 ≤ Job.chunks_processed progress_row
  ∧ 0 ≤ Job.total_chunks progress_row
  ∧ Job.chunks_processed progress_row ≤ Job.total_chunks progress_row.
Proof.
  assert (H : progress_row ∈ observed "job-1"
                (trace (post_analyze report_write_fails "job-1" clip empty_world)))
    by (vm_compute; repeat constructor).
  split; [exact H|].
  exact (progress_within_total report_write_fails "job-1" clip empty_world
           progress_row H).
Defined.

Lemma failure_keeps_progress_witness :
  adjacent progress_row failed_row
    (observed "job-1" (trace (post_analyze report_write_fails "job-1" clip empty_world)))
  ∧ Job.chunks_processed failed_row = 1
  ∧ Job.total_chunks failed_row = 1
  ∧ Job.report failed_row = None
  ∧ Job.video_path failed_row = "uploads/job-1.mp4".
Proof.
  assert (H : adjacent progress_row failed_row
                (observed "job-1"
                   (trace (post_analyze report_write_fails "job-1" clip empty_world)))).
  { exists (take 3 (observed "job-1"
                      (trace (post_analyze report_write_fails "job-1" clip empty_world)))),
           [].
    vm_compute. reflexivity. }
  split; [exact H|].
  destruct (failure_keeps_progress report_write_fails "job-1" clip empty_world
              progress_row failed_row H eq_refl eq_refl)
    as (Hcp & Htot & Hrep & Hpath & _).
  repeat split; assumption.
Defined.

Lemma unknown_and_deleted_jobs_not_found_witness :
  get_status "job-2" completed_world = HttpError 404 "Job not found"
  ∧ Job.status completed_row = "COMPLETE"
  ∧ is_Some (chunks completed_world !! chunk_dir_of "job-1")
  ∧ (let w' := world_after (delete_job second_chunk_fails "job-1" completed_world) in
     get_status "job-1" w' = HttpError 404 "Job not found"
     ∧ chunks w' !! chunk_dir_of "job-1" = None).
Proof.
  split_and!.
  - apply (proj1 (unknown_and_deleted_jobs_not_found second_chunk_fails "job-2"
                    completed_world)).
    vm_compute. reflexivity.
  - vm_compute. reflexivity.
  - exists []. vm_compute. reflexivity.
  - apply (proj2 (unknown_and_deleted_jobs_not_found second_chunk_fails "job-1"
                    completed_world)
             completed_row "Job job-1 deleted successfully").
    + vm_compute. reflexivity.
    + vm_compute. reflexivity.
Defined.

(** * Further properties of the code *)

(** ** What a run may write *)

Lemma writes_only_refl (job_id : string) (w : World) : writes_only job_id w w [].
Proof. split_and!; done. Qed.

Lemma writes_only_same_jobs (job_id : string) (w w' : World) :
  jobs w' = jobs w → writes_only job_id w w' [].
Proof. intros H. unfold writes_only. rewrite H. split_and!; done. Qed.

Lemma writes_only_trans (job_id : string) (w1 w2 w3 : World) (t1 t2 : list Event) :
  writes_only job_id w1 w2 t1 → writes_only job_id w2 w3 t2 →
  writes_only job_id w1 w3 (t1 ++ t2).
Proof.
  intros (F1 & P1 & E1) (F2 & P2 & E2). split_and!.
  - intros k Hk. rewrite F2, F1; done.
  - rewrite P2. exact P1.
  - apply Forall_app. split; [exact E1|].
    eapply Forall_impl; [exact E2|].
    intros [k row| |]; simpl; try done.
    intros [-> Hsome]. split; [done|].
    apply not_eq_None_Some. intros E. apply P1 in E.
    rewrite E in Hsome. now destruct Hsome.
Qed.

Lemma keeps_to_ret {A} (job_id : string) (a : A) : keeps_to job_id (ret a).
Proof. intros w. apply writes_only_refl. Qed.

Lemma keeps_to_raise {A} (job_id e : string) : keeps_to job_id (@raise A e).
Proof. intros w. apply writes_only_refl. Qed.

Lemma keeps_to_bind {A B} (job_id : string) (m : M A) (k : A → M B) :
  keeps_to job_id m → (∀ a, keeps_to job_id (k a)) → keeps_to job_id (bind m k).
Proof.
  intros Hm Hk w. specialize (Hm w). unfold bind.
  destruct (m w) as [[[a|e] w1] t1]; cbn [world_after trace fst snd] in *; [|exact Hm].
  specialize (Hk a w1). destruct (k a w1) as [[r w2] t2].
  cbn [world_after trace fst snd] in *. eapply writes_only_trans; eassumption.
Qed.

Lemma keeps_to_try_except {A} (job_id : string) (body : M A) (handler : string → M A) :
  keeps_to job_id body → (∀ e, keeps_to job_id (handler e)) →
  keeps_to job_id (try_except body handler).
Proof.
  intros Hm Hk w. specialize (Hm w). unfold try_except.
  destruct (body w) as [[[a|e] w1] t1]; cbn [world_after trace fst snd] in *; [exact Hm|].
  specialize (Hk e w1). destruct (handler e w1) as [[r w2] t2].
  cbn [world_after trace fst snd] in *. eapply writes_only_trans; eassumption.
Qed.

Lemma keeps_to_modify (job_id : string) (f : World → World) :
  (∀ w, jobs (f w) = jobs w) → keeps_to job_id (modify f).
Proof. intros Hf w. apply writes_only_same_jobs, Hf. Qed.

Section Keeps.

Variable env : Env.

Lemma keeps_to_update_job (job_id : string) (assign : Job.t → Job.t) :
  keeps_to job_id (update_job env job_id assign).
Proof.
  intros w. unfold update_job.
  destruct (jobs w !! job_id) as [j|] eqn:Hj; cbn [world_after trace fst snd].
  - split_and!.
    + intros k Hk. simpl. now apply lookup_insert_ne.
    + simpl. rewrite lookup_insert_eq, Hj. split; discriminate.
    + repeat constructor. eauto.
  - apply writes_only_refl.
Qed.

Lemma keeps_to_os_remove (job_id path : string) : keeps_to job_id (os_remove env path).
Proof.
  intros w. unfold os_remove.
  destruct (remove_error env path); [apply writes_only_refl|].
  destruct (file_exists w path); [|apply writes_only_refl].
  now apply writes_only_same_jobs.
Qed.

Lemma keeps_to_cleanup_chunks (job_id : string) (chunk_paths : list string) :
  keeps_to job_id (cleanup_chunks env chunk_paths).
Proof.
  induction chunk_paths as [|p rest IH]; simpl; [apply keeps_to_ret|].
  apply keeps_to_bind; [|intros _; exact IH].
  apply keeps_to_try_except; [apply keeps_to_os_remove|].
  intros e. apply keeps_to_ret.
Qed.

Lemma keeps_to_analyze_chunk (job_id : string) (i : Z) (chunk_path : string)
    (summaries : list string) :
  keeps_to job_id (analyze_chunk env job_id i chunk_path summaries).
Proof.
  apply keeps_to_try_except; [|intros e; apply keeps_to_ret].
  apply keeps_to_bind.
  - unfold analyze_video_chunk_with_gemini. apply keeps_to_bind.
    + intros w. split_and!; try done. repeat constructor.
    + intros _. destruct (gemini env chunk_path); [apply keeps_to_raise|apply keeps_to_ret].
  - intros summary. apply keeps_to_bind; [apply keeps_to_update_job|].
    intros _. apply keeps_to_ret.
Qed.

Lemma keeps_to_analyze_chunks (job_id : string) (chunk_paths : list string) :
  ∀ i summaries, keeps_to job_id (analyze_chunks env job_id i chunk_paths summaries).
Proof.
  induction chunk_paths as [|p rest IH]; intros i summaries; simpl;
    [apply keeps_to_ret|].
  apply keeps_to_bind; [apply keeps_to_analyze_chunk|]. intros s. apply IH.
Qed.

Lemma keeps_to_process_video_job (job_id video_path : string) :
  keeps_to job_id (process_video_job env job_id video_path).
Proof.
  apply keeps_to_try_except; [|intros e; apply keeps_to_update_job].
  apply keeps_to_bind; [apply keeps_to_update_job|]. intros _.
  apply keeps_to_bind.
  { unfold chunk_video_with_ffmpeg.
    destruct (ffmpeg env job_id video_path);
      (apply keeps_to_bind; [now apply keeps_to_modify|]); intros _;
      first [apply keeps_to_ret | apply keeps_to_raise]. }
  intros [|c cs]; [apply keeps_to_raise|].
  apply keeps_to_bind; [apply keeps_to_update_job|]. intros _.
  apply keeps_to_bind; [apply keeps_to_analyze_chunks|]. intros summaries.
  apply keeps_to_bind.
  { intros w. now apply writes_only_same_jobs. }
  intros generated.
  apply keeps_to_bind.
  { intros w. unfold write_text. destruct (write_error env _);
      [apply writes_only_refl | now apply writes_only_same_jobs]. }
  intros _.
  apply keeps_to_bind; [apply keeps_to_update_job|]. intros _.
  apply keeps_to_cleanup_chunks.
Qed.

End Keeps.

(** The handler of the outer [try] does not raise, so nothing gets out. *)
Lemma process_video_job_outcome (env : Env) (job_id video_path : string) (w : World) :
  outcome (process_video_job env job_id video_path w) = Ok tt.
Proof.
  unfold process_video_job, try_except.
  match goal with |- context [bind ?m ?k w] => destruct (bind m k w) as [[[[]|e] w1] t1] end;
    [reflexivity|].
  unfold update_job. destruct (jobs w1 !! job_id); reflexivity.
Qed.

(** X1. The background task never lets an exception out: whatever FFmpeg,
    the analysis, the file system and the table hold, the run of
    [process_video_job] ends normally. *)
Theorem process_video_job_never_raises (env : Env) (job_id video_path : string)
    (w : World) :
  outcome (process_video_job env job_id video_path w) = Ok tt.
Proof. apply process_video_job_outcome. Qed.

(** X2. A run of the background task for a job writes no other row of the
    table: every other row is as before, no row is inserted or deleted
    (the row of the job included), every commit is a commit of the row
    of the job, and no deletion is recorded. *)
Theorem process_video_job_writes_own_row_only (env : Env) (job_id video_path : string)
    (w : World) :
  let r := process_video_job env job_id video_path w in
  (∀ k, k ≠ job_id → jobs (world_after r) !! k = jobs w !! k)
  ∧ dom (jobs (world_after r)) = dom (jobs w)
  ∧ (∀ k row, Committed k row ∈ trace r → k = job_id)
  ∧ (∀ k, Deleted k ∉ trace r).
Proof.
  intros r. destruct (keeps_to_process_video_job env job_id video_path w)
    as (Hframe & Hpres & Hev). fold r in Hframe, Hpres, Hev.
  rewrite Forall_forall in Hev. split_and!.
  - exact Hframe.
  - apply set_eq. intros k. rewrite !elem_of_dom.
    destruct (decide (k = job_id)) as [->|Hne]; [|now rewrite Hframe].
    rewrite <- !not_eq_None_Some. now rewrite Hpres.
  - intros k row Hin. now destruct (Hev _ Hin).
  - intros k Hin. exact (Hev _ Hin).
Qed.

(** X3. When the row of the job is not in the table (the job was deleted
    before its background task started), the run leaves the table as it
    is and commits nothing. *)
Theorem process_video_job_without_row (env : Env) (job_id video_path : string)
    (w : World) :
  jobs w !! job_id = None →
  let r := process_video_job env job_id video_path w in
  jobs (world_after r) = jobs w
  ∧ (∀ k row, Committed k row ∉ trace r).
Proof.
  intros Hnone r. destruct (keeps_to_process_video_job env job_id video_path w)
    as (Hframe & Hpres & Hev). fold r in Hframe, Hpres, Hev.
  rewrite Forall_forall in Hev. split.
  - apply map_eq. intros k.
    destruct (decide (k = job_id)) as [->|Hne]; [|now apply Hframe].
    rewrite Hnone. now apply Hpres.
  - intros k row Hin. destruct (Hev _ Hin) as [_ [j Hj]]. congruence.
Qed.

(** ** The cleanup loop *)

Lemma filter_other_id (p : string) (l : list string) :
  p ∉ l → filter (λ f, f ≠ p) l = l.
Proof.
  induction l as [|x l IH]; intros Hp; [reflexivity|].
  rewrite not_elem_of_cons in Hp. destruct Hp as [Hne Hp].
  rewrite filter_cons_True by congruence. now rewrite IH.
Qed.

(** Removing a path that names no file changes nothing. *)
Lemma unlink_absent (w : World) (p : string) :
  file_exists w p = false → unlink p w = w.
Proof.
  unfold file_exists. intros H.
  apply orb_false_elim in H as [H Hc]. apply orb_false_elim in H as [Hu Hr].
  apply bool_decide_eq_false in Hu, Hr, Hc.
  destruct w as [js us rs cs tk].
  unfold unlink, with_chunks, with_reports, with_uploads; simpl in *. f_equal.
  - apply set_eq. intros x. rewrite elem_of_difference, elem_of_singleton.
    split; [tauto|]. intros Hx. split; [exact Hx|]. intros ->. contradiction.
  - apply delete_id. now apply eq_None_not_Some.
  - apply map_eq. intros d. rewrite lookup_fmap.
    destruct (cs !! d) as [files|] eqn:Hd; [|reflexivity]. simpl. f_equal.
    apply filter_other_id. intros Hin. apply Hc. now exists d, files.
Qed.

Section Cleanup.

Variable env : Env.

(** The cleanup loop never raises; it takes the removable chunk files
    out of every directory and leaves the rest of the world alone. *)
Lemma cleanup_chunks_effect (chunk_paths : list string) :
  ∀ w, ∃ w',
    cleanup_chunks env chunk_paths w = (Ok tt, w', [])
    ∧ jobs w' = jobs w
    ∧ (∀ d, chunks w' !! d =
            filter (λ f, f ∉ removable env chunk_paths) <$> chunks w !! d)
    ∧ (∀ p, p ∈ uploads w' ↔ p ∈ uploads w ∧ p ∉ removable env chunk_paths)
    ∧ (∀ p, reports w' !! p =
            if decide (p ∈ removable env chunk_paths) then None else reports w !! p).
Proof.
  induction chunk_paths as [|p rest IH]; intros w.
  - exists w. split_and!; try done.
    + intros d. destruct (chunks w !! d) as [files|]; [|reflexivity]. simpl. f_equal.
      symmetry. induction files as [|x files IHf]; [reflexivity|].
      rewrite filter_cons_True by apply not_elem_of_nil. now rewrite IHf.
    + intros q. split; [|tauto]. intros H. split; [exact H|apply not_elem_of_nil].
  - simpl cleanup_chunks. unfold bind, try_except, os_remove, removable.
    destruct (remove_error env p) as [e|] eqn:Hp; simpl.
    + rewrite filter_cons_False by congruence.
      destruct (IH w) as (w' & -> & Hj & Hc & Hu & Hr). exists w'. done.
    + rewrite filter_cons_True by exact Hp.
      fold (removable env rest).
      assert (Hrun : ∀ w1, w1 = unlink p w →
                ∃ w', cleanup_chunks env rest w1 = (Ok tt, w', [])
                  ∧ jobs w' = jobs w
                  ∧ (∀ d, chunks w' !! d =
                      filter (λ f, f ∉ p :: removable env rest) <$> chunks w !! d)
                  ∧ (∀ q, q ∈ uploads w' ↔ q ∈ uploads w ∧ q ∉ p :: removable env rest)
                  ∧ (∀ q, reports w' !! q =
                      if decide (q ∈ p :: removable env rest) then None
                      else reports w !! q)).
      { intros w1 ->. destruct (IH (unlink p w)) as (w' & Hrun & Hj & Hc & Hu & Hr).
        exists w'. split_and!; [exact Hrun | exact Hj | | |].
        - intros d. rewrite Hc. simpl. rewrite lookup_fmap.
          destruct (chunks w !! d) as [files|]; [|reflexivity]. simpl. f_equal.
          rewrite list_filter_filter. apply list_filter_iff. intros f.
          rewrite not_elem_of_cons. tauto.
        - intros q. rewrite Hu. simpl.
          rewrite elem_of_difference, elem_of_singleton, not_elem_of_cons. tauto.
        - intros q. rewrite Hr. simpl.
          destruct (decide (q ∈ removable env rest)) as [Hin|Hin].
          + rewrite decide_True by (now apply list_elem_of_further). reflexivity.
          + destruct (decide (q = p)) as [->|Hne].
            * rewrite decide_True by apply list_elem_of_here. apply lookup_delete_eq.
            * rewrite decide_False by (rewrite elem_of_cons; tauto).
              now apply lookup_delete_ne. }
      destruct (file_exists w p) eqn:Hex; simpl.
      * destruct (Hrun (unlink p w) eq_refl) as (w' & -> & H). exists w'. done.
      * destruct (Hrun w (eq_sym (unlink_absent w p Hex))) as (w' & -> & H).
        exists w'. done.
Qed.

End Cleanup.

(** ** A run of the background task, whatever the table holds *)

Section Effects.

Variable env : Env.

Lemma update_job_effect (job_id : string) (assign : Job.t → Job.t) (w : World) :
  ∃ w' tr,
    update_job env job_id assign w = (Ok tt, w', tr)
    ∧ analyzed tr = []
    ∧ uploads w' = uploads w ∧ reports w' = reports w ∧ chunks w' = chunks w
    ∧ (∀ j, jobs w !! job_id = Some j →
         ∃ t, jobs w' !! job_id = Some (Job.set_updated_at t (assign j))).
Proof.
  unfold update_job. destruct (jobs w !! job_id) as [j|] eqn:Hj.
  - eexists _, _. split; [reflexivity|]. split_and!; try done.
    intros j0 [= <-]. eexists. simpl. apply lookup_insert_eq.
  - exists w, []. split_and!; done.
Qed.

(** The loop of step 2 in any world: it never raises, it calls the
    analysis once per chunk in order, it touches no file, and it leaves
    in [chunks_processed] the number of the last chunk that was analysed
    without an exception. *)
Lemma analyze_chunks_effect (job_id : string) (chunk_paths : list string) :
  ∀ (i : Z) (summaries : list string) (w : World),
    ∃ w' tr,
      analyze_chunks env job_id i chunk_paths summaries w =
        (Ok (summaries ++ chunk_summaries env i chunk_paths), w', tr)
      ∧ analyzed tr = numbered_chunks i chunk_paths
      ∧ uploads w' = uploads w ∧ reports w' = reports w ∧ chunks w' = chunks w
      ∧ (∀ j, jobs w !! job_id = Some j →
           ∃ t, jobs w' !! job_id =
                Some (Job.set_updated_at t
                        (Job.set_chunks_processed
                           (last_analyzed env i chunk_paths (Job.chunks_processed j)) j))).
Proof.
  induction chunk_paths as [|p rest IH]; intros i summaries w.
  - exists w, []. rewrite app_nil_r. split_and!; try done.
    intros j Hj. exists (Job.updated_at j). simpl. now rewrite job_eta.
  - simpl analyze_chunks. unfold bind.
    replace (summaries ++ chunk_summaries env i (p :: rest))
      with ((summaries ++ [chunk_summary env i p]) ++ chunk_summaries env (i + 1) rest)
      by (simpl; now rewrite <- app_assoc).
    destruct (gemini env p) as [e|text] eqn:Hg.
    + rewrite (analyze_chunk_failed env job_id i p summaries w e Hg).
      destruct (IH (i + 1) (summaries ++ [chunk_summary env i p]) w)
        as (w' & tr & -> & Han & Hu & Hr & Hc & Hrow).
      eexists _, _. split; [reflexivity|].
      simpl. rewrite Han, Hg. split_and!; done.
    + unfold analyze_chunk, try_except, bind, analyze_video_chunk_with_gemini, bind, emit.
      rewrite Hg. unfold ret at 1. cbn [app].
      destruct (update_job_effect job_id (Job.set_chunks_processed (i + 1)) w)
        as (w1 & t1 & -> & Han1 & Hu1 & Hr1 & Hc1 & Hrow1).
      unfold ret at 1.
      assert (Hsum : summaries ++ [strip text] = summaries ++ [chunk_summary env i p])
        by (unfold chunk_summary; now rewrite Hg).
      rewrite Hsum.
      destruct (IH (i + 1) (summaries ++ [chunk_summary env i p]) w1)
        as (w' & tr & -> & Han & Hu & Hr & Hc & Hrow).
      eexists _, _. split; [reflexivity|].
      rewrite app_nil_r. cbn [app analyzed]. rewrite analyzed_app, Han1, Han.
      simpl. rewrite Hg.
      split_and!; try done; try congruence.
      intros j Hj. destruct (Hrow1 j Hj) as (t & Hj1).
      destruct (Hrow _ Hj1) as (t' & Hj'). exists t'. exact Hj'.
Qed.

(** A run with at least one chunk, in any world: the calls of the
    analysis, the row of the job if there is one, and the files. *)
Lemma process_video_job_effect (job_id video_path : string) (w : World)
    (chunk_paths : list string) :
  ffmpeg env job_id video_path = FfmpegDone chunk_paths →
  chunk_paths ≠ [] →
  let r := process_video_job env job_id video_path w in
  let n := Z.of_nat (length chunk_paths) in
  let report_path := report_path_of job_id in
  let chunk_dir := chunk_dir_of job_id in
  ∃ generated,
    let text := create_consolidated_report generated (chunk_summaries env 0 chunk_paths) in
    analyzed (trace r) = numbered_chunks 0 chunk_paths
    ∧ (∀ j, jobs w !! job_id = Some j →
         ∃ t, jobs (world_after r) !! job_id =
              Some (match write_error env report_path with
                    | None =>
                        Job.set_updated_at t
                          (Job.set_chunks_processed n
                             (Job.set_report (Some text)
                                (Job.set_status "COMPLETE" (Job.set_total_chunks n j))))
                    | Some e =>
                        Job.set_updated_at t
                          (Job.set_error (Some e)
                             (Job.set_status "FAILED"
                                (Job.set_chunks_processed
                                   (last_analyzed env 0 chunk_paths (Job.chunks_processed j))
                                   (Job.set_total_chunks n j))))
                    end))
    ∧ match write_error env report_path with
      | None =>
          (∀ d, chunks (world_after r) !! d =
                filter (λ f, f ∉ removable env chunk_paths)
                  <$> <[chunk_dir := chunk_paths]> (chunks w) !! d)
          ∧ (∀ p, p ∈ uploads (world_after r) ↔
                  p ∈ uploads w ∧ p ∉ removable env chunk_paths)
          ∧ (∀ p, reports (world_after r) !! p =
                  if decide (p ∈ removable env chunk_paths) then None
                  else <[report_path := text]> (reports w) !! p)
      | Some _ =>
          chunks (world_after r) = <[chunk_dir := chunk_paths]> (chunks w)
          ∧ uploads (world_after r) = uploads w
          ∧ reports (world_after r) = reports w
      end.
Proof.
  intros Hff Hne r n report_path chunk_dir.
  unfold r, process_video_job, try_except, bind.
  destruct (update_job_effect job_id (Job.set_status "PROCESSING") w)
    as (w1 & tr1 & -> & Han1 & Hu1 & Hr1 & Hc1 & Hrow1).
  unfold chunk_video_with_ffmpeg. rewrite Hff. unfold bind, modify, ret.
  destruct chunk_paths as [|c cs]; [done|].
  set (paths := c :: cs) in *.
  set (w2 := with_chunks _ w1).
  destruct (update_job_effect job_id (Job.set_total_chunks (Z.of_nat (length paths))) w2)
    as (w3 & tr3 & -> & Han3 & Hu3 & Hr3 & Hc3 & Hrow3).
  destruct (analyze_chunks_effect job_id paths 0 [] w3)
    as (w4 & tr4 & -> & Han4 & Hu4 & Hr4 & Hc4 & Hrow4).
  unfold read_strftime_now, write_text. fold report_path.
  exists (strftime_now env (ticks w4)).
  assert (Hrow : ∀ j, jobs w !! job_id = Some j →
            ∃ t, jobs w4 !! job_id =
                 Some (Job.set_updated_at t
                         (Job.set_chunks_processed
                            (last_analyzed env 0 paths (Job.chunks_processed j))
                            (Job.set_total_chunks n (Job.set_status "PROCESSING" j))))).
  { intros j Hj. destruct (Hrow1 j Hj) as (t1 & Hj1).
    destruct (Hrow3 _ Hj1) as (t3 & Hj3). destruct (Hrow4 _ Hj3) as (t4 & Hj4).
    exists t4. exact Hj4. }
  destruct (write_error env report_path) as [e|] eqn:Hw.
  - set (w5 := with_ticks _ w4).
    destruct (update_job_effect job_id
                (fun db_job => Job.set_error (Some e) (Job.set_status "FAILED" db_job)) w5)
      as (w6 & tr6 & -> & Han6 & Hu6 & Hr6 & Hc6 & Hrow6).
    cbn [trace world_after fst snd].
    rewrite !app_nil_r, !analyzed_app, Han1, Han3, Han4, Han6, app_nil_r.
    split_and!.
    + reflexivity.
    + intros j Hj. destruct (Hrow j Hj) as (t & Hj4).
      destruct (Hrow6 _ Hj4) as (t' & Hj6). exists t'. exact Hj6.
    + rewrite Hc6. simpl. rewrite Hc4, Hc3. simpl. now rewrite Hc1.
    + rewrite Hu6. simpl. rewrite Hu4, Hu3. simpl. exact Hu1.
    + rewrite Hr6. simpl. rewrite Hr4, Hr3. simpl. exact Hr1.
  - set (w5 := with_reports _ _).
    destruct (update_job_effect job_id
                (fun db_job =>
                   Job.set_chunks_processed (Z.of_nat (length paths))
                     (Job.set_report
                        (Some (create_consolidated_report (strftime_now env (ticks w4))
                                 ([] ++ chunk_summaries env 0 paths)))
                        (Job.set_status "COMPLETE" db_job))) w5)
      as (w6 & tr6 & -> & Han6 & Hu6 & Hr6 & Hc6 & Hrow6).
    destruct (cleanup_chunks_effect env paths w6) as (w7 & -> & Hj7 & Hc7 & Hu7 & Hr7).
    cbn [trace world_after fst snd].
    rewrite !app_nil_r, !analyzed_app, Han1, Han3, Han4, Han6, app_nil_r.
    split_and!.
    + reflexivity.
    + intros j Hj. destruct (Hrow j Hj) as (t & Hj4).
      destruct (Hrow6 _ Hj4) as (t' & Hj6). exists t'. rewrite Hj7. exact Hj6.
    + intros d. rewrite Hc7, Hc6. simpl. rewrite Hc4, Hc3. simpl. now rewrite Hc1.
    + intros q. rewrite Hu7, Hu6. simpl. rewrite Hu4, Hu3. simpl. now rewrite Hu1.
    + intros q. rewrite Hr7, Hr6. simpl. rewrite Hr4, Hr3. simpl. now rewrite Hr1.
Qed.

(** A run whose segmentation step is fatal, in any world. *)
Lemma process_video_job_fatal_effect (job_id video_path : string) (w : World)
    (e : string) :
  segmentation_error env job_id video_path = Some e →
  let r := process_video_job env job_id video_path w in
  analyzed (trace r) = []
  ∧ (∀ j, jobs w !! job_id = Some j →
       ∃ t, jobs (world_after r) !! job_id =
            Some (Job.set_updated_at t
                    (Job.set_error (Some e) (Job.set_status "FAILED" j))))
  ∧ chunks (world_after r) =
      <[chunk_dir_of job_id :=
          chunk_listing env job_id video_path (chunks w !! chunk_dir_of job_id)]> (chunks w)
  ∧ uploads (world_after r) = uploads w
  ∧ reports (world_after r) = reports w.
Proof.
  intros Hseg r.
  unfold r, process_video_job, try_except, bind.
  destruct (update_job_effect job_id (Job.set_status "PROCESSING") w)
    as (w1 & tr1 & -> & Han1 & Hu1 & Hr1 & Hc1 & Hrow1).
  unfold segmentation_error in Hseg. unfold chunk_video_with_ffmpeg, chunk_listing.
  destruct (ffmpeg env job_id video_path) as [[|c cs]|files stderr|e'];
    [| discriminate | |]; injection Hseg as <-;
    unfold bind, modify, ret, raise;
    match goal with
    | |- context [update_job env job_id ?f ?w2] =>
        destruct (update_job_effect job_id f w2)
          as (w3 & tr3 & -> & Han3 & Hu3 & Hr3 & Hc3 & Hrow3)
    end;
    cbn [trace world_after fst snd];
    rewrite ?app_nil_r, !analyzed_app, Han1, Han3;
    (split_and!;
     [ reflexivity
     | intros j Hj; destruct (Hrow1 j Hj) as (t1 & Hj1);
       destruct (Hrow3 _ Hj1) as (t3 & Hj3); exists t3; exact Hj3
     | rewrite Hc3; simpl; now rewrite Hc1
     | rewrite Hu3; simpl; exact Hu1
     | rewrite Hr3; simpl; exact Hr1 ]).
Qed.

End Effects.

Lemma filter_agree {A} (P Q : A → Prop) `{!∀ x, Decision (P x), !∀ x, Decision (Q x)}
    (l : list A) :
  (∀ x, x ∈ l → (P x ↔ Q x)) → filter P l = filter Q l.
Proof.
  induction l as [|x l IH]; intros Hext; [reflexivity|].
  rewrite !filter_cons. rewrite IH by (intros y Hy; apply Hext; now right).
  destruct (decide (P x)) as [HP|HP], (decide (Q x)) as [HQ|HQ]; try reflexivity;
    exfalso; [apply HQ | apply HP]; apply (Hext x); try apply list_elem_of_here;
    assumption.
Qed.

Lemma filter_none {A} (P : A → Prop) `{!∀ x, Decision (P x)} (l : list A) :
  (∀ x, x ∈ l → ¬ P x) → filter P l = [].
Proof.
  induction l as [|x l IH]; intros Hnone; [reflexivity|].
  rewrite filter_cons_False by (apply Hnone; left).
  apply IH. intros y Hy. apply Hnone. now right.
Qed.

Lemma removable_complement (env : Env) (chunk_paths : list string) :
  filter (λ f, f ∉ removable env chunk_paths) chunk_paths =
  filter (λ f, remove_error env f ≠ None) chunk_paths.
Proof.
  apply filter_agree. intros f Hf. unfold removable.
  rewrite list_elem_of_filter. tauto.
Qed.

Lemma report_not_empty (generated : string) (summaries : list string) :
  String.eqb (create_consolidated_report generated summaries) EmptyString = false.
Proof. reflexivity. Qed.

(** ** The analysis calls *)

(** X4. A run calls the analysis once for every chunk that FFmpeg left,
    in the order of the chunks and with the numbers 1, 2, ...; it calls
    it for nothing else, and not at all when FFmpeg failed.  This holds
    whatever the analysis answers and whether or not the report can be
    written. *)
Theorem every_chunk_is_analyzed_once_in_order (env : Env) (job_id video_path : string)
    (w : World) :
  analyzed (trace (process_video_job env job_id video_path w)) =
  match ffmpeg env job_id video_path with
  | FfmpegDone chunk_paths => numbered_chunks 0 chunk_paths
  | FfmpegFailed _ _ | FfmpegNotRun _ => []
  end.
Proof.
  destruct (segmentation_error env job_id video_path) as [e|] eqn:Hseg.
  - destruct (process_video_job_fatal_effect env job_id video_path w e Hseg) as (-> & _).
    unfold segmentation_error in Hseg.
    destruct (ffmpeg env job_id video_path) as [[|c cs]|files stderr|e']; done.
  - unfold segmentation_error in Hseg.
    destruct (ffmpeg env job_id video_path) as [[|c cs]|files stderr|e'] eqn:Hff;
      try discriminate.
    destruct (process_video_job_effect env job_id video_path w (c :: cs) Hff)
      as (generated & Han & _); done.
Qed.

(** ** How a run ends *)


(** X6. After a run that gets as far as the cleanup (at least one chunk,
    report file written), the chunk directory of the job is still there
    and holds exactly the chunk files on which [os.remove] raised; it is
    empty when no removal raised. *)
Theorem completed_run_leaves_only_undeletable_chunks (env : Env)
    (job_id video_path : string) (w : World) (chunk_paths : list string) :
  ffmpeg env job_id video_path = FfmpegDone chunk_paths →
  chunk_paths ≠ [] →
  write_error env (report_path_of job_id) = None →
  let w' := world_after (process_video_job env job_id video_path w) in
  chunks w' !! chunk_dir_of job_id =
    Some (filter (λ f, remove_error env f ≠ None) chunk_paths)
  ∧ ((∀ f, f ∈ chunk_paths → remove_error env f = None) →
     chunks w' !! chunk_dir_of job_id = Some []).
Proof.
  intros Hff Hne Hw w'.
  destruct (process_video_job_effect env job_id video_path w chunk_paths Hff Hne)
    as (generated & _ & _ & Hfiles).
  rewrite Hw in Hfiles. destruct Hfiles as (Hc & _ & _). fold w' in Hc.
  assert (Hdir : chunks w' !! chunk_dir_of job_id =
                 Some (filter (λ f, remove_error env f ≠ None) chunk_paths)).
  { rewrite Hc, lookup_insert_eq. simpl. now rewrite removable_complement. }
  split; [exact Hdir|].
  intros Hall. rewrite Hdir. f_equal.
  apply filter_none. intros f Hf Hrem. apply Hrem, Hall, Hf.
Qed.

(** X7. After a run that completes for a job whose row is in the table,
    the file [reports/<job_id>_report.txt] holds the report, and a status
    query answers COMPLETE with both counters at the number of chunks,
    with no error, and with that same text as the report. *)
Theorem completed_job_serves_the_stored_report (env : Env)
    (job_id video_path : string) (w : World) (j : Job.t) (chunk_paths : list string) :
  jobs w !! job_id = Some j →
  ffmpeg env job_id video_path = FfmpegDone chunk_paths →
  chunk_paths ≠ [] →
  write_error env (report_path_of job_id) = None →
  report_path_of job_id ∉ chunk_paths →
  let w' := world_after (process_video_job env job_id video_path w) in
  let n := Z.of_nat (length chunk_paths) in
  ∃ text t,
    reports w' !! report_path_of job_id = Some text
    ∧ get_status job_id w' =
      HttpOk (mkStatusResponse job_id "COMPLETE" (Job.created_at j) t
                (Job.video_filename j) (Job.video_size j) n n (Some text) None).
Proof.
  intros Hj Hff Hne Hw Hrp w' n.
  destruct (process_video_job_effect env job_id video_path w chunk_paths Hff Hne)
    as (generated & _ & Hrow & Hfiles).
  rewrite Hw in Hrow, Hfiles. destruct Hfiles as (_ & _ & Hr). fold w' in Hrow, Hr.
  destruct (Hrow j Hj) as (t & Hj').
  eexists _, t. split.
  - rewrite Hr. rewrite decide_False.
    + apply lookup_insert_eq.
    + unfold removable. rewrite list_elem_of_filter. tauto.
  - unfold get_status. rewrite Hj'. simpl. rewrite ?report_not_empty. reflexivity.
Qed.




(** X9. A run for a job whose row is in the table always ends with the
    row in a terminal status, and the status is COMPLETE exactly when
    FFmpeg left at least one chunk and the report file could be written;
    failures of the analysis of chunks play no part. *)
Theorem run_ends_in_terminal_status (env : Env) (job_id video_path : string)
    (w : World) (j : Job.t) :
  jobs w !! job_id = Some j →
  let w' := world_after (process_video_job env job_id video_path w) in
  ∃ j',
    jobs w' !! job_id = Some j'
    ∧ (Job.status j' = "COMPLETE" ∨ Job.status j' = "FAILED")
    ∧ (Job.status j' = "COMPLETE" ↔
       segmentation_error env job_id video_path = None
       ∧ write_error env (report_path_of job_id) = None).
Proof.
  intros Hj w'.
  destruct (segmentation_error env job_id video_path) as [e|] eqn:Hseg.
  - destruct (process_video_job_fatal_effect env job_id video_path w e Hseg)
      as (_ & Hrow & _). fold w' in Hrow.
    destruct (Hrow j Hj) as (t & Hj'). eexists. split; [exact Hj'|]. simpl.
    split; [now right|]. split; [discriminate|]. intros [? _]. discriminate.
  - assert (Hseg' := Hseg). unfold segmentation_error in Hseg'.
    destruct (ffmpeg env job_id video_path) as [[|c cs]|files stderr|e'] eqn:Hff;
      try discriminate.
    destruct (process_video_job_effect env job_id video_path w (c :: cs) Hff)
      as (generated & _ & Hrow & _); [done|]. fold w' in Hrow.
    destruct (Hrow j Hj) as (t & Hj'). eexists. split; [exact Hj'|].
    destruct (write_error env (report_path_of job_id)) as [e|]; simpl.
    + split; [now right|]. split; [discriminate|]. intros [_ ?]. discriminate.
    + split; [now left|]. done.
Qed.

(** ** The rows of a job over its life *)

Lemma adjacent_elem_of {A} (a b : A) (l : list A) : adjacent a b l → a ∈ l ∧ b ∈ l.
Proof.
  intros (l1 & l2 & ->). rewrite !elem_of_app, !elem_of_cons. tauto.
Qed.

(** X10. From one observation of a job to the next, neither counter goes
    back, and [total_chunks] does not change once it is not zero: it is
    set once. *)
Theorem counters_never_go_back (env : Env) (job_id : string) (file : Upload)
    (w : World) (a b : Job.t) :
  adjacent a b (observed job_id (trace (post_analyze env job_id file w))) →
  Job.chunks_processed a ≤ Job.chunks_processed b
  ∧ Job.total_chunks a ≤ Job.total_chunks b
  ∧ (Job.total_chunks a ≠ 0 → Job.total_chunks b = Job.total_chunks a).
Proof.
  intros Hadj.
  destruct (post_analyze_lifecycle env job_id file w)
    as [Hnil|(j0 & rest & j' & Hrows & Hnew & Hpath & _)].
  - rewrite Hnil in Hadj. destruct Hadj as (l1 & l2 & Heq). destruct l1; discriminate.
  - rewrite Hrows in Hadj.
    pose proof (lifecycle_path_forall row_invariant j0 j' rest lifecycle_invariant
                  Hpath (new_row_invariant j0 Hnew)) as Hall.
    rewrite Forall_forall in Hall.
    destruct (Hall a (proj1 (adjacent_elem_of a b _ Hadj))) as (_ & _ & Hcp).
    pose proof (lifecycle_path_adjacent j0 j' rest Hpath a b Hadj) as Hstep.
    destruct Hstep as [j t Hs|j t n Hs Ht Hc Hn|j t k Hs Hk|j t text Hs Hn|j t e Hs];
      simpl; split_and!; try done; try lia.
Qed.

(** The first row written under [POST /v1/analyze] is the row built from
    the upload. *)
Lemma post_analyze_first_row (env : Env) (job_id : string) (file : Upload)
    (w : World) (j : Job.t) :
  head (observed job_id (trace (post_analyze env job_id file w))) = Some j →
  Job.id j = job_id
  ∧ Job.video_path j = saved_path job_id file
  ∧ Job.video_filename j = filename file
  ∧ Job.video_size j = Z.of_nat (String.length (content file)).
Proof.
  unfold post_analyze, bind at 1, create_analysis_job.
  destruct (negb _); [discriminate|].
  fold (saved_path job_id file).
  destruct (write_error env (saved_path job_id file)) as [e|]; [discriminate|].
  unfold bind, modify, read_utcnow, get_world, emit, ret.
  cbn [jobs with_ticks with_uploads].
  destruct (jobs w !! job_id) as [old|]; [discriminate|].
  cbn [app].
  match goal with
  | |- context [process_video_job env job_id ?path ?w1] =>
      destruct (process_video_job env job_id path w1) as [[[] w2] tr]
  end;
    cbn [trace snd app observed];
    (destruct (decide (job_id = job_id)); [|done]);
    intros [= <-]; done.
Qed.

(** X11. Every row an observer reads over the life of a job carries the
    id of the job, the path its upload was saved at, and the name and the
    size of the upload; and all the rows carry the same creation time.
    No write of the pipeline touches these columns. *)
Theorem row_identity_is_fixed_at_submission (env : Env) (job_id : string)
    (file : Upload) (w : World) (a b : Job.t) :
  let rows := observed job_id (trace (post_analyze env job_id file w)) in
  a ∈ rows → b ∈ rows →
  Job.id a = job_id
  ∧ Job.video_path a = saved_path job_id file
  ∧ Job.video_filename a = filename file
  ∧ Job.video_size a = Z.of_nat (String.length (content file))
  ∧ Job.created_at a = Job.created_at b.
Proof.
  intros rows Ha Hb.
  destruct (post_analyze_lifecycle env job_id file w)
    as [Hnil|(j0 & rest & j' & Hrows & Hnew & Hpath & _)]; fold rows in Hnil || fold rows in Hrows.
  - rewrite Hnil in Ha. now apply not_elem_of_nil in Ha.
  - destruct (post_analyze_first_row env job_id file w j0) as (Hid & Hvp & Hfn & Hsz).
    { fold rows. now rewrite Hrows. }
    set (P := λ j : Job.t,
           Job.id j = Job.id j0 ∧ Job.video_path j = Job.video_path j0
           ∧ Job.video_filename j = Job.video_filename j0
           ∧ Job.video_size j = Job.video_size j0
           ∧ Job.created_at j = Job.created_at j0).
    assert (Hall : Forall P (j0 :: rest)).
    { apply (lifecycle_path_forall P j0 j' rest); [|exact Hpath|unfold P; done].
      intros x y Hx Hstep.
      destruct Hstep as [j t Hs|j t n Hs Ht Hc Hn|j t k Hs Hk|j t text Hs Hn|j t e Hs];
        exact Hx. }
    rewrite Forall_forall in Hall. rewrite Hrows in Ha, Hb.
    destruct (Hall a Ha) as (Ha1 & Ha2 & Ha3 & Ha4 & Ha5).
    destruct (Hall b Hb) as (_ & _ & _ & _ & Hb5).
    split_and!; congruence.
Qed.

(** ** Submission *)


(** X13. An upload that passes the check, for an id that is not in the
    table and with a writable upload directory, is answered with the
    ticket of the job (its id, its status URL, the name and the size in
    bytes of the upload) whatever the processing does afterwards; the
    first row written is PENDING with both counters at zero, no report
    and no error; and the row of the job is in the table after the run. *)
Theorem accepted_upload_gets_its_ticket (env : Env) (job_id : string) (file : Upload)
    (w : World) :
  ((∃ ct, content_type file = Some ct ∧ String.prefix "video/" ct = true)
   ∨ (∃ name, filename file = Some name ∧ name ≠ EmptyString
              ∧ lower (path_suffix name) ∈ valid_video_extensions)) →
  write_error env (saved_path job_id file) = None →
  jobs w !! job_id = None →
  let r := post_analyze env job_id file w in
  outcome r =
    Ok (HttpOk (mkTicket job_id ("/v1/analyze/status/" +:+ job_id) (filename file)
                  (Z.of_nat (String.length (content file)))))
  ∧ (∃ j, head (observed job_id (trace r)) = Some j ∧ new_row j)
  ∧ is_Some (jobs (world_after r) !! job_id).
Proof.
  intros Hok Hw Hfree r.
  assert (Hcreate : ∃ created updated,
            let j := Job.mk job_id "PENDING" created updated (saved_path job_id file)
                       (filename file) (Z.of_nat (String.length (content file)))
                       None None 0 0 in
            create_analysis_job env job_id file w =
            (Ok (HttpOk (mkTicket job_id ("/v1/analyze/status/" +:+ job_id) (filename file)
                           (Z.of_nat (String.length (content file))),
                         saved_path job_id file)),
             with_jobs (<[job_id := j]> (jobs w))
               (with_ticks (S (S (ticks w)))
                  (with_uploads ({[saved_path job_id file]} ∪ uploads w) w)),
             [Committed job_id j])).
  { unfold create_analysis_job.
    assert (Hcheck : negb
              (match content_type file with
               | Some ct => negb (String.eqb ct EmptyString) && String.prefix "video/" ct
               | None => false
               end
               || bool_decide
                    ((if truthy (filename file)
                      then lower (path_suffix (default EmptyString (filename file)))
                      else EmptyString) ∈ valid_video_extensions)) = false).
    { apply negb_false_iff, orb_true_iff.
      destruct Hok as [(ct & -> & Hp)|(name & -> & Hne & Hin)].
      - left. rewrite Hp, andb_true_r.
        destruct ct; [discriminate|reflexivity].
      - right. apply bool_decide_eq_true. simpl.
        destruct name; [done|]. exact Hin. }
    rewrite Hcheck. fold (saved_path job_id file). rewrite Hw.
    unfold bind, modify, read_utcnow, get_world, emit, ret.
    cbn [jobs with_ticks with_uploads]. rewrite Hfree.
    eexists _, _. reflexivity. }
  destruct Hcreate as (created & updated & Hcreate).
  set (j := Job.mk job_id "PENDING" created updated (saved_path job_id file)
              (filename file) (Z.of_nat (String.length (content file)))
              None None 0 0) in *.
  assert (Hrun : ∃ w2 tr,
            r = (Ok (HttpOk (mkTicket job_id ("/v1/analyze/status/" +:+ job_id)
                               (filename file)
                               (Z.of_nat (String.length (content file))))),
                 w2, Committed job_id j :: tr)
            ∧ is_Some (jobs w2 !! job_id)).
  { unfold r, post_analyze, bind at 1. rewrite Hcreate. unfold bind.
    match goal with
    | |- context [process_video_job env job_id ?path ?w1] =>
        pose proof (process_video_job_outcome env job_id path w1) as Hnr;
        destruct (keeps_to_process_video_job env job_id path w1) as (_ & Hpres & _);
        destruct (process_video_job env job_id path w1) as [[res w2] tr]
    end.
    cbn [outcome world_after trace fst snd] in *. subst res. unfold ret.
    eexists _, _. split; [rewrite app_nil_r; reflexivity|].
    apply not_eq_None_Some. rewrite Hpres. simpl. now rewrite lookup_insert_eq. }
  destruct Hrun as (w2 & tr & -> & Hsome).
  cbn [outcome world_after trace fst snd observed].
  destruct (decide (job_id = job_id)); [|done].
  split_and!.
  - reflexivity.
  - exists j. split; [reflexivity|]. repeat split.
  - exact Hsome.
Qed.

(** X14. When the id drawn for an accepted upload is already in the
    table, the answer is 500 "Failed to create job record: ...", the
    table is as before and no background task runs; but the upload has
    been written to [uploads/] and is left there. *)
Theorem taken_id_leaves_the_upload_behind (env : Env) (job_id : string) (file : Upload)
    (w : World) (old : Job.t) :
  ((∃ ct, content_type file = Some ct ∧ String.prefix "video/" ct = true)
   ∨ (∃ name, filename file = Some name ∧ name ≠ EmptyString
              ∧ lower (path_suffix name) ∈ valid_video_extensions)) →
  write_error env (saved_path job_id file) = None →
  jobs w !! job_id = Some old →
  let r := post_analyze env job_id file w in
  outcome r =
    Ok (HttpError 500 ("Failed to create job record: " +:+ integrity_error env))
  ∧ jobs (world_after r) = jobs w
  ∧ trace r = []
  ∧ saved_path job_id file ∈ uploads (world_after r).
Proof.
  intros Hok Hw Htaken r.
  unfold r, post_analyze, bind at 1, create_analysis_job.
  assert (Hcheck : negb
            (match content_type file with
             | Some ct => negb (String.eqb ct EmptyString) && String.prefix "video/" ct
             | None => false
             end
             || bool_decide
                  ((if truthy (filename file)
                    then lower (path_suffix (default EmptyString (filename file)))
                    else EmptyString) ∈ valid_video_extensions)) = false).
  { apply negb_false_iff, orb_true_iff.
    destruct Hok as [(ct & -> & Hp)|(name & -> & Hne & Hin)].
    - left. rewrite Hp, andb_true_r.
      destruct ct; [discriminate|reflexivity].
    - right. apply bool_decide_eq_true. simpl.
      destruct name; [done|]. exact Hin. }
  rewrite Hcheck. fold (saved_path job_id file). rewrite Hw.
  unfold bind, modify, read_utcnow, get_world, emit, ret.
  cbn [jobs with_ticks with_uploads]. rewrite Htaken.
  cbn [outcome world_after trace fst snd app jobs uploads with_ticks with_uploads].
  split_and!; try done.
  apply elem_of_union. left. now apply elem_of_singleton.
Qed.

(** X15. Whenever [POST /v1/analyze] answers an error, the status code is
    400 or 500, no row has been written and no background task has run;
    the request never ends in an exception. *)
Theorem error_answer_means_no_job (env : Env) (job_id : string) (file : Upload)
    (w : World) :
  let r := post_analyze env job_id file w in
  (∃ answer, outcome r = Ok answer)
  ∧ (∀ code detail,
       outcome r = Ok (HttpError code detail) →
       (code = 400 ∨ code = 500)
       ∧ jobs (world_after r) = jobs w
       ∧ trace r = []).
Proof.
  intros r. unfold r, post_analyze, bind at 1, create_analysis_job.
  destruct (negb _).
  { split; [eexists; reflexivity|]. intros code detail [= <- <-]. auto. }
  destruct (write_error env _) as [e|].
  { split; [eexists; reflexivity|]. intros code detail [= <- <-]. auto. }
  unfold bind, modify, read_utcnow, get_world, emit, ret.
  cbn [jobs with_ticks with_uploads].
  destruct (jobs w !! job_id) as [old|].
  { split; [eexists; reflexivity|]. intros code detail [= <- <-]. auto. }
  cbn [app].
  match goal with
  | |- context [process_video_job env job_id ?path ?w1] =>
      pose proof (process_video_job_outcome env job_id path w1) as Hnr;
      destruct (process_video_job env job_id path w1) as [[res w2] tr]
  end.
  cbn [outcome fst] in Hnr. subst res.
  split; [eexists; reflexivity|]. intros code detail [=].
Qed.

(** ** Deletion *)

(** X16. [DELETE /v1/jobs/<id>] never ends in an exception.  When it
    answers an error, the status code is 404 or 500, the table is as
    before and no deletion is recorded; the code is 404 exactly when the
    id is not in the table, and then nothing at all has changed.  So a
    deletion that fails on a file leaves the row of the job in place. *)
Theorem failed_deletion_keeps_the_row (env : Env) (job_id : string) (w : World) :
  let r := delete_job env job_id w in
  (∃ answer, outcome r = Ok answer)
  ∧ (∀ code detail,
       outcome r = Ok (HttpError code detail) →
       (code = 404 ∨ code = 500)
       ∧ (code = 404 ↔ jobs w !! job_id = None)
       ∧ (code = 404 → world_after r = w)
       ∧ jobs (world_after r) = jobs w
       ∧ trace r = []).
Proof.
  intros r. unfold r. clear r.
  destruct (delete_job env job_id w) as [[res w'] tr] eqn:Hrun.
  cbn [outcome world_after trace fst snd].
  revert Hrun. unfold delete_job, bind at 1, get_world.
  destruct (jobs w !! job_id) as [db_job|] eqn:Hj.
  - unfold try_except, bind, get_world, modify, emit, ret, os_remove, rmtree.
    intros Hrun.
    repeat (case_match; simplify_eq/=);
      (split; [eauto|]); intros code detail [=]; subst;
      split_and!; try done; auto.
  - unfold ret. intros [= <- <- <-].
    split; [eauto|]. intros code detail [=]; subst. split_and!; try done; auto.
Qed.

(** X17. A deletion that answers without an error says so in its
    message, has removed exactly the row of the job from the table and
    recorded one deletion, and has left neither the uploaded video (when
    the row names one) nor the report file of the job on disk. *)
Theorem deletion_removes_row_and_files (env : Env) (job_id : string) (w : World)
    (j : Job.t) (message : string) :
  jobs w !! job_id = Some j →
  outcome (delete_job env job_id w) = Ok (HttpOk message) →
  let r := delete_job env job_id w in
  message = "Job " +:+ job_id +:+ " deleted successfully"
  ∧ jobs (world_after r) = delete job_id (jobs w)
  ∧ trace r = [Deleted job_id]
  ∧ (Job.video_path j ≠ EmptyString → Job.video_path j ∉ uploads (world_after r))
  ∧ reports (world_after r) !! report_path_of job_id = None.
Proof.
  intros Hj Hout r. unfold r. clear r.
  destruct (delete_job env job_id w) as [[res w'] tr] eqn:Hrun.
  cbn [outcome world_after trace fst snd] in *. subst res.
  revert Hrun. unfold delete_job, bind at 1, get_world.
  rewrite Hj.
  unfold try_except, bind, get_world, modify, emit, ret, os_remove, rmtree.
  intros Hrun.
  assert (Hup : ∀ (u : gset string) (p q : string), p ∉ u ∖ {[p]} ∖ {[q]}).
  { intros u p q. rewrite !elem_of_difference, elem_of_singleton. tauto. }
  assert (Hup1 : ∀ (u : gset string) (p : string), p ∉ u ∖ {[p]}).
  { intros u p. rewrite elem_of_difference, elem_of_singleton. tauto. }
  assert (Hup2 : ∀ (u : gset string) (p q : string), p ∉ u → p ∉ u ∖ {[q]}).
  { intros u p q Hp. rewrite elem_of_difference. tauto. }
  assert (Hcond : ∀ w0 p,
            negb (String.eqb p EmptyString) && path_exists w0 p = false →
            p ≠ EmptyString → p ∉ uploads w0).
  { intros w0 p Hc Hne. apply andb_false_iff in Hc as [Hc|Hc].
    - apply negb_false_iff, String.eqb_eq in Hc. contradiction.
    - unfold path_exists, file_exists in Hc.
      apply orb_false_elim in Hc as [Hc _]. apply orb_false_elim in Hc as [Hc _].
      apply orb_false_elim in Hc as [Hc _]. now apply bool_decide_eq_false in Hc. }
  assert (Hrep : ∀ w0 p, path_exists w0 p = false → reports w0 !! p = None).
  { intros w0 p Hc. unfold path_exists, file_exists in Hc.
    apply orb_false_elim in Hc as [Hc _]. apply orb_false_elim in Hc as [Hc _].
    apply orb_false_elim in Hc as [_ Hc]. apply bool_decide_eq_false in Hc.
    now apply eq_None_not_Some. }
  repeat (case_match; simplify_eq/=);
    split_and!; try done;
    try apply lookup_delete_eq;
    try (intros Hne; first [apply Hup | apply Hup1 | apply Hup2; now apply Hcond
                            | now apply Hcond]);
    try (match goal with
         | H : path_exists _ (report_path_of job_id) = false |- _ =>
             apply Hrep in H; simpl in H; exact H
         end).
Qed.

(** X18. Deleting a job a second time answers 404 and changes nothing. *)
Theorem deleting_twice_answers_not_found (env : Env) (job_id : string) (w : World)
    (message : string) :
  outcome (delete_job env job_id w) = Ok (HttpOk message) →
  let w' := world_after (delete_job env job_id w) in
  delete_job env job_id w' = (Ok (HttpError 404 "Job not found"), w', []).
Proof.
  intros Hout w'. unfold w'.
  destruct (delete_job env job_id w) as [[res w1] tr] eqn:Hrun.
  cbn [outcome world_after fst snd] in *. subst res.
  destruct (delete_job_done env job_id message w w1 tr Hrun) as [Hrow _].
  unfold delete_job, bind, get_world. now rewrite Hrow.
Qed.

(** ** Listing *)

Lemma elem_of_sql_offset {A} (skip : Z) (l : list A) (x : A) :
  x ∈ sql_offset skip l → x ∈ l.
Proof.
  unfold sql_offset. intros H.
  rewrite <- (take_drop (Z.to_nat skip) l). apply elem_of_app. now right.
Qed.

Lemma elem_of_sql_limit {A} (limit : Z) (l : list A) (x : A) :
  x ∈ sql_limit limit l → x ∈ l.
Proof.
  unfold sql_limit. destruct (limit <? 0); [done|]. intros H.
  rewrite <- (take_drop (Z.to_nat limit) l). apply elem_of_app. now left.
Qed.

(** X19. Every item [GET /v1/jobs] answers is the summary of a row of the
    table, and when a status is asked for (a non-empty one), of a row
    with that status. *)
Theorem listed_jobs_are_table_rows (w : World) (rows : list Job.t) (skip limit : Z)
    (status : option string) (item : JobSummary) :
  table_scan w rows →
  item ∈ list_jobs rows skip limit status →
  ∃ k j,
    jobs w !! k = Some j
    ∧ item = job_summary j
    ∧ (truthy status = true → status = Some (Job.status j)).
Proof.
  intros Hscan Hin. unfold list_jobs in Hin.
  apply list_elem_of_fmap in Hin as (j & -> & Hj).
  apply elem_of_sql_limit, elem_of_sql_offset in Hj.
  assert (Hrow : j ∈ rows ∧ (truthy status = true → status = Some (Job.status j))).
  { destruct (truthy status) eqn:Ht.
    - apply list_elem_of_filter in Hj as [Hst Hj]. split; [exact Hj|]. intros _.
      destruct status as [st|]; [|discriminate]. simpl in Hst. now rewrite Hst.
    - split; [exact Hj|discriminate]. }
  destruct Hrow as [Hrow Hst].
  unfold table_scan in Hscan. rewrite Hscan in Hrow.
  apply list_elem_of_fmap in Hrow as ([k j'] & -> & Hkj).
  apply elem_of_map_to_list in Hkj. exists k, j'. done.
Qed.

(** X20. With a limit that is not negative, [GET /v1/jobs] answers at
    most that many items. *)
Theorem listing_respects_limit (rows : list Job.t) (skip limit : Z)
    (status : option string) :
  0 ≤ limit →
  Z.of_nat (length (list_jobs rows skip limit status)) ≤ limit.
Proof.
  intros Hl. unfold list_jobs, sql_limit. rewrite length_fmap.
  destruct (limit <? 0) eqn:E; [apply Z.ltb_lt in E; lia|].
  rewrite length_take. lia.
Qed.



(** ** The text of the report *)

Lemma occurs_in_trans (a b c : string) : occurs_in a b → occurs_in b c → occurs_in a c.
Proof.
  intros (b1 & b2 & ->) (c1 & c2 & ->).
  exists (c1 +:+ b1), (b2 +:+ c2). now rewrite !str_app_assoc.
Qed.

Lemma occurs_in_join (sep x : string) (parts : list string) :
  x ∈ parts → occurs_in x (str_join sep parts).
Proof.
  induction parts as [|p rest IH]; intros Hin; [now apply not_elem_of_nil in Hin|].
  destruct rest as [|q rest].
  - apply elem_of_cons in Hin as [->|Hin]; [|now apply not_elem_of_nil in Hin].
    exists EmptyString, EmptyString. simpl. rewrite str_app_cons_nil. reflexivity.
  - change (str_join sep (p :: q :: rest)) with (p +:+ sep +:+ str_join sep (q :: rest)).
    apply elem_of_cons in Hin as [->|Hin].
    + apply occurs_in_here.
    + do 2 apply occurs_in_prepend. now apply IH.
Qed.

(** X23. Every summary handed to [create_consolidated_report] appears
    word for word in the report. *)
Theorem report_contains_every_summary (generated : string) (summaries : list string)
    (summary : string) :
  summary ∈ summaries →
  occurs_in summary (create_consolidated_report generated summaries).
Proof.
  intros Hin. apply list_elem_of_lookup in Hin as (k & Hk).
  rewrite create_consolidated_report_unfold.
  apply occurs_in_prepend, occurs_in_append.
  apply (occurs_in_trans _ (report_section (1 + Z.of_nat k) summary)).
  - unfold report_section. do 5 apply occurs_in_prepend. apply occurs_in_here.
  - apply occurs_in_join. apply list_elem_of_lookup. exists k.
    now apply numbered_sections_lookup.
Qed.

(** ** Instances of the further properties *)

Lemma process_video_job_without_row_witness :
  jobs empty_world !! "job-1" = None
  ∧ (let r := process_video_job second_chunk_fails "job-1" "uploads/job-1.mp4"
               empty_world in
     jobs (world_after r) = jobs empty_world
     ∧ (∀ k row, Committed k row ∉ trace r)).
Proof.
  split; [reflexivity|].
  apply (process_video_job_without_row second_chunk_fails "job-1" "uploads/job-1.mp4"
           empty_world).
  reflexivity.
Defined.


Lemma completed_run_leaves_only_undeletable_chunks_witness :
  let w' := world_after (process_video_job second_chunk_fails "job-1" "uploads/job-1.mp4"
                           submitted_world) in
  chunks w' !! chunk_dir_of "job-1" = Some [].
Proof.
  intros w'.
  destruct (completed_run_leaves_only_undeletable_chunks second_chunk_fails "job-1"
              "uploads/job-1.mp4" submitted_world [chunk_000; chunk_001; chunk_002])
    as [_ Hempty].
  - reflexivity.
  - discriminate.
  - reflexivity.
  - apply Hempty. intros f _. reflexivity.
Defined.

Lemma report_path_is_no_chunk :
  report_path_of "job-1" ∉ [chunk_000; chunk_001; chunk_002].
Proof.
  intros H. repeat (apply elem_of_cons in H as [H|H]; [discriminate H|]).
  now apply not_elem_of_nil in H.
Qed.

Lemma completed_job_serves_the_stored_report_witness :
  let w' := world_after (process_video_job second_chunk_fails "job-1" "uploads/job-1.mp4"
                           submitted_world) in
  ∃ text t,
    reports w' !! report_path_of "job-1" = Some text
    ∧ get_status "job-1" w' =
      HttpOk (mkStatusResponse "job-1" "COMPLETE" 0 t (Some "clip.mp4") 6 3 3
                (Some text) None).
Proof.
  apply (completed_job_serves_the_stored_report second_chunk_fails "job-1"
           "uploads/job-1.mp4" submitted_world submitted_row
           [chunk_000; chunk_001; chunk_002]).
  - vm_compute. reflexivity.
  - reflexivity.
  - discriminate.
  - reflexivity.
  - exact report_path_is_no_chunk.
Defined.


Lemma run_ends_in_terminal_status_witness :
  let w' := world_after (process_video_job second_chunk_fails "job-1" "uploads/job-1.mp4"
                           submitted_world) in
  ∃ j',
    jobs w' !! "job-1" = Some j'
    ∧ (Job.status j' = "COMPLETE" ∨ Job.status j' = "FAILED")
    ∧ (Job.status j' = "COMPLETE" ↔
       segmentation_error second_chunk_fails "job-1" "uploads/job-1.mp4" = None
       ∧ write_error second_chunk_fails (report_path_of "job-1") = None).
Proof.
  apply (run_ends_in_terminal_status second_chunk_fails "job-1" "uploads/job-1.mp4"
           submitted_world submitted_row).
  vm_compute. reflexivity.
Defined.

Lemma progress_then_failure_adjacent :
  adjacent progress_row failed_row
    (observed "job-1" (trace (post_analyze report_write_fails "job-1" clip empty_world))).
Proof.
  exists (take 3 (observed "job-1"
                    (trace (post_analyze report_write_fails "job-1" clip empty_world)))),
         [].
  vm_compute. reflexivity.
Qed.

Lemma counters_never_go_back_witness :
  Job.chunks_processed progress_row ≤ Job.chunks_processed failed_row
  ∧ Job.total_chunks progress_row ≤ Job.total_chunks failed_row
  ∧ (Job.total_chunks progress_row ≠ 0 →
     Job.total_chunks failed_row = Job.total_chunks progress_row).
Proof.
  exact (counters_never_go_back report_write_fails "job-1" clip empty_world
           progress_row failed_row progress_then_failure_adjacent).
Defined.

Lemma row_identity_is_fixed_at_submission_witness :
  Job.id progress_row = "job-1"
  ∧ Job.video_path progress_row = saved_path "job-1" clip
  ∧ Job.video_filename progress_row = filename clip
  ∧ Job.video_size progress_row = Z.of_nat (String.length (content clip))
  ∧ Job.created_at progress_row = Job.created_at failed_row.
Proof.
  apply (row_identity_is_fixed_at_submission report_write_fails "job-1" clip empty_world
           progress_row failed_row).
  - apply (adjacent_elem_of _ _ _ progress_then_failure_adjacent).
  - apply (adjacent_elem_of _ _ _ progress_then_failure_adjacent).
Defined.


Lemma accepted_upload_gets_its_ticket_witness :
  let r := post_analyze second_chunk_fails "job-1" clip empty_world in
  outcome r =
    Ok (HttpOk (mkTicket "job-1" "/v1/analyze/status/job-1" (Some "clip.mp4") 6))
  ∧ (∃ j, head (observed "job-1" (trace r)) = Some j ∧ new_row j)
  ∧ is_Some (jobs (world_after r) !! "job-1").
Proof.
  apply (accepted_upload_gets_its_ticket second_chunk_fails "job-1" clip empty_world).
  - left. exists "video/mp4". split; reflexivity.
  - reflexivity.
  - reflexivity.
Defined.

Lemma taken_id_leaves_the_upload_behind_witness :
  let r := post_analyze second_chunk_fails "job-1" clip submitted_world in
  outcome r =
    Ok (HttpError 500 "Failed to create job record: UNIQUE constraint failed: jobs.id")
  ∧ jobs (world_after r) = jobs submitted_world
  ∧ trace r = []
  ∧ saved_path "job-1" clip ∈ uploads (world_after r).
Proof.
  apply (taken_id_leaves_the_upload_behind second_chunk_fails "job-1" clip
           submitted_world submitted_row).
  - left. exists "video/mp4". split; reflexivity.
  - reflexivity.
  - vm_compute. reflexivity.
Defined.

Lemma deletion_removes_row_and_files_witness :
  let r := delete_job second_chunk_fails "job-1" completed_world in
  is_Some (reports completed_world !! report_path_of "job-1")
  ∧ "uploads/job-1.mp4" ∈ uploads completed_world
  ∧ jobs (world_after r) = delete "job-1" (jobs completed_world)
  ∧ trace r = [Deleted "job-1"]
  ∧ ("uploads/job-1.mp4" ∉ uploads (world_after r))
  ∧ reports (world_after r) !! report_path_of "job-1" = None.
Proof.
  intros r.
  destruct (deletion_removes_row_and_files second_chunk_fails "job-1" completed_world
              completed_row "Job job-1 deleted successfully")
    as (_ & Hjobs & Htr & Hup & Hrep).
  - vm_compute. reflexivity.
  - vm_compute. reflexivity.
  - split_and!; try assumption.
    + vm_compute. eauto.
    + vm_compute. reflexivity.
    + apply Hup. vm_compute. discriminate.
Defined.

Lemma deleting_twice_answers_not_found_witness :
  let w' := world_after (delete_job second_chunk_fails "job-1" completed_world) in
  delete_job second_chunk_fails "job-1" w' = (Ok (HttpError 404 "Job not found"), w', []).
Proof.
  apply (deleting_twice_answers_not_found second_chunk_fails "job-1" completed_world
           "Job job-1 deleted successfully").
  vm_compute. reflexivity.
Defined.

Lemma submitted_world_scan : table_scan submitted_world [submitted_row].
Proof.
  unfold table_scan, submitted_world. simpl.
  rewrite map_to_list_singleton. reflexivity.
Qed.

Lemma listed_jobs_are_table_rows_witness :
  job_summary submitted_row ∈ list_jobs [submitted_row] 0 100 (Some "PENDING")
  ∧ ∃ k j,
      jobs submitted_world !! k = Some j
      ∧ job_summary submitted_row = job_summary j
      ∧ (truthy (Some "PENDING") = true → Some "PENDING" = Some (Job.status j)).
Proof.
  assert (H : job_summary submitted_row ∈ list_jobs [submitted_row] 0 100 (Some "PENDING"))
    by (vm_compute; left).
  split; [exact H|].
  exact (listed_jobs_are_table_rows submitted_world [submitted_row] 0 100
           (Some "PENDING") (job_summary submitted_row) submitted_world_scan H).
Defined.

Lemma listing_respects_limit_witness :
  Z.of_nat (length (list_jobs [submitted_row; progress_row; failed_row] 0 2 None)) ≤ 2.
Proof.
  apply (listing_respects_limit [submitted_row; progress_row; failed_row] 0 2 None).
  lia.
Defined.



Lemma report_contains_every_summary_witness :
  occurs_in "Officer arrives."
    (create_consolidated_report "2024-01-01 00:00:00"
       ["Officer arrives."; "Error processing chunk 2: Failed to analyze chunk 2: timeout"]).
Proof.
  apply (report_contains_every_summary "2024-01-01 00:00:00"
           ["Officer arrives."; "Error processing chunk 2: Failed to analyze chunk 2: timeout"]
           "Officer arrives.").
  left.
Defined.
